(** * The reducer's round orchestrator (fedn/clients/reducer/control.py)

    A shallow embedding of [ReducerControl]: the combiner registry, the three
    policy gates, the single round, the multi-round driver and the model
    aggregation, followed by the properties of the orchestrator that the
    design document states.

    Conventions of the embedding.
    - A method of [ReducerControl] is a computation in the monad [M]: it takes
      the world (the reducer's fields, the state store, the model repository,
      the remote combiners, standard output) and ends with a returned value,
      a raised exception, or no result when the fuel of the polling loop is
      used up.
    - [config] is a Python dict; it is embedded as a record of the keys the
      reducer reads, with the values that [int(...)] and the comparison with
      a float expect (integers; for the timeout any int or float, inf and
      nan included).  The float counter of the polling loop is a whole
      number, with the rounding of [+= 1.0] at 2^53 written out.
    - A remote call answers from the current state of the remote combiners
      and does not fail; the combiners change state when they receive
      [set_model_id] or [start], and while the reducer sleeps.
    - [print] appends the format string to standard output; the rendering of
      the formatted arguments is not modelled. *)

From Stdlib Require Import String List ZArith NArith QArith Qround Bool Lia.
Import ListNotations.
Local Open Scope string_scope.
Local Open Scope list_scope.
Local Open Scope Z_scope.

Module ReducerControl.

(* ------------------------------------------------------------------ *)
(** ** Data *)

(** Modelled from the spec: the enumeration [ReducerState], which control.py
    imports from the module [.state]; its three members are the states of
    the design document (idle, dispatching = instructing,
    awaiting-convergence = monitoring), all three named in control.py. *)
Inductive ReducerState : Type := idle | instructing | monitoring.

Definition ReducerState_eqb (a b : ReducerState) : bool :=
  match a, b with
  | idle, idle | instructing, instructing | monitoring, monitoring => true
  | _, _ => false
  end.

(** A model id.  [uuid.uuid4()] yields a UUID object, the repository and the
    combiners hand out opaque tokens.  A UUID object is never equal to a
    token, and it is always true in a condition; a token is false in a
    condition when it is the empty string. *)
Inductive ident : Type :=
| Uuid (bits : N)
| Token (s : string).

Definition ident_eqb (a b : ident) : bool :=
  match a, b with
  | Uuid m, Uuid n => N.eqb m n
  | Token s, Token t => String.eqb s t
  | _, _ => false
  end.

(** [a == b] on values that may be [None]. *)
Definition py_eq (a b : option ident) : bool :=
  match a, b with
  | None, None => true
  | Some x, Some y => ident_eqb x y
  | _, _ => false
  end.

(** [bool(model_id)]. *)
Definition id_truthy (a : option ident) : bool :=
  match a with
  | None => false
  | Some (Token s) => negb (String.eqb s EmptyString)
  | Some (Uuid _) => true
  end.

(** The serialized form of a model, as [get_model()] delivers it. *)
Definition blob : Type := string.

(** Modelled from the spec: the handle of one combiner, a class defined
    outside control.py.  [name] is the attribute the registry reads; [oid]
    is the identity of the Python object, which is what [==] compares when
    [list.remove] looks for the handle. *)
Record Combiner : Type := mkCombiner { name : string; oid : nat }.

Definition Combiner_eqb (a b : Combiner) : bool :=
  Nat.eqb (oid a) (oid b) && String.eqb (name a) (name b).

(** A Python number, as [config['round_timeout']] may hold one: an int or a
    finite float, both exact rationals, or one of the floats inf, -inf and
    nan. *)
Inductive number : Type :=
| Finite (q : Q)
| PosInf
| NegInf
| NaN.

Coercion Finite : Q >-> number.

(** [wait >= timeout] for a float [wait] that holds a whole number.  Python
    compares a float with an int or a float exactly; every comparison with
    nan is false. *)
Definition timeout_reached (timeout : number) (wait : Z) : bool :=
  match timeout with
  | Finite q => Qle_bool q (inject_Z wait)
  | PosInf => false
  | NegInf => true
  | NaN => false
  end.

(** 2^53: up to here every whole number is a binary64 float. *)
Definition float_limit : Z := 9007199254740992.

(** [wait += 1.0] for a binary64 float [wait] that holds a whole number
    (from -2^53 to 2^53; the counter of a round starts at 0.0): the sum is
    exact below 2^53; 2^53 + 1 is not a float and rounds back to 2^53, so
    the counter stops growing there. *)
Definition float_incr (wait : Z) : Z :=
  if wait <? float_limit then wait + 1 else wait.

(** The dict [config] and the compute plans copied from it. *)
Record Config : Type := mkConfig {
  rounds : Z;
  round_timeout : number;
  clients_required : Z;
  task : option string;
  model_id : option ident;
  params : list (string * string)
}.

Definition set_rounds (v : Z) (c : Config) : Config :=
  mkConfig v (round_timeout c) (clients_required c) (task c) (model_id c) (params c).
Definition set_task (v : string) (c : Config) : Config :=
  mkConfig (rounds c) (round_timeout c) (clients_required c) (Some v) (model_id c) (params c).
Definition set_model_id_key (v : option ident) (c : Config) : Config :=
  mkConfig (rounds c) (round_timeout c) (clients_required c) (task c) v (params c).

(** What [combiner.report()] returns, as far as the reducer reads it. *)
Record CombinerState : Type := mkCombinerState { nr_active_clients : Z }.

(** class Model: the (DB) representation of a global model. *)
Record Model : Type := mkModel {
  m_id : option ident;
  m_name : string;
  m_type : string;
  m_version : string;
  m_parent : string;
  m_alliance_uid : string;
  m_round_id : Z
}.

(** Model.__init__ *)
Definition Model_init (id : option ident) (model_type : string) : Model :=
  mkModel id EmptyString model_type EmptyString EmptyString EmptyString 0.

(** The calls that change a remote combiner. *)
Inductive rpc : Type :=
| SetModelId (c : Combiner) (id : option ident)
| Start (c : Combiner) (plan : Config).

Inductive exn : Type :=
| ValueError          (* list.remove(x): x not in list *)
| UnboundLocalError   (* local variable referenced before assignment *)
| HelperError.        (* raised by the helper while loading a model *)

(* ------------------------------------------------------------------ *)
(** ** The collaborators of the reducer *)

(** Modelled from the spec: the methods of a combiner handle (report, start,
    set_model_id, get_model_id, get_model, allowing_clients), implemented
    outside control.py.  [remote] is the joint state of the combiners;
    [elapse] is what one [time.sleep(1.0)] lets them do. *)
Class CombinerInterface : Type := {
  remote : Type;
  report : remote -> Combiner -> CombinerState;
  get_model_id : remote -> Combiner -> option ident;
  get_model : remote -> Combiner -> option blob;
  allowing_clients : remote -> Combiner -> bool;
  set_model_id : Combiner -> option ident -> remote -> remote;
  start : Combiner -> Config -> remote -> remote;
  elapse : remote -> remote
}.

(** Modelled from the spec: the aggregation helper (KerasSequentialHelper,
    which control.py imports from fedn.utils.helpers).
    [load_model] and [increment_average] answer [None] when they raise;
    [increment_average] updates its first argument in place, the answer is
    the updated model.  [save] is [model.save(file)], [model_bool] is the
    truth value of a model in a condition. *)
Class Helper : Type := {
  repr : Type;
  load_model : blob -> option repr;
  increment_average : repr -> repr -> Z -> option repr;
  save : repr -> blob;
  model_bool : repr -> bool
}.

(** Modelled from the spec: the model repository (S3ModelRepository, which
    control.py imports from fedn.common.storage.s3.s3repo): [set_model]
    stores a file and returns the id it gave it; [stored_ids] lists the ids
    given so far. *)
Class ModelRepository : Type := {
  store : Type;
  set_model : store -> blob -> ident * store;
  stored_ids : store -> list ident
}.

Section Control.

Context {CI : CombinerInterface} {H : Helper} {MR : ModelRepository}.

(** The reducer and everything it talks to. *)
Record world : Type := mkWorld {
  state : ReducerState;          (* self.__state *)
  combiners : list Combiner;     (* self.combiners *)
  latest : option ident;         (* self.statestore: get_latest / set_latest *)
  repository : store;            (* self.model_repository *)
  network : remote;              (* the remote combiners *)
  sent : list rpc;               (* set_model_id and start calls made so far *)
  clock : Z;                     (* seconds slept so far *)
  stdout : list string;          (* lines printed so far *)
  urandom : nat -> N;            (* the random source behind uuid4 *)
  drawn : nat                    (* how many uuids were drawn *)
}.

Definition with_state (v : ReducerState) (w : world) : world :=
  mkWorld v (combiners w) (latest w) (repository w) (network w) (sent w)
          (clock w) (stdout w) (urandom w) (drawn w).
Definition with_combiners (v : list Combiner) (w : world) : world :=
  mkWorld (state w) v (latest w) (repository w) (network w) (sent w)
          (clock w) (stdout w) (urandom w) (drawn w).
Definition with_latest (v : option ident) (w : world) : world :=
  mkWorld (state w) (combiners w) v (repository w) (network w) (sent w)
          (clock w) (stdout w) (urandom w) (drawn w).
Definition with_repository (v : store) (w : world) : world :=
  mkWorld (state w) (combiners w) (latest w) v (network w) (sent w)
          (clock w) (stdout w) (urandom w) (drawn w).
Definition with_call (c : rpc) (v : remote) (w : world) : world :=
  mkWorld (state w) (combiners w) (latest w) (repository w) v (sent w ++ [c])
          (clock w) (stdout w) (urandom w) (drawn w).
Definition with_sleep (w : world) : world :=
  mkWorld (state w) (combiners w) (latest w) (repository w) (elapse (network w))
          (sent w) (clock w + 1) (stdout w) (urandom w) (drawn w).
Definition with_line (s : string) (w : world) : world :=
  mkWorld (state w) (combiners w) (latest w) (repository w) (network w) (sent w)
          (clock w) (stdout w ++ [s]) (urandom w) (drawn w).
Definition with_draw (w : world) : world :=
  mkWorld (state w) (combiners w) (latest w) (repository w) (network w) (sent w)
          (clock w) (stdout w) (urandom w) (S (drawn w)).

(* ------------------------------------------------------------------ *)
(** ** The monad of the methods *)

Inductive outcome (A : Type) : Type :=
| Ret (a : A) (w : world)       (* the call returned a *)
| Raise (e : exn) (w : world)   (* the call raised e *)
| OutOfFuel.                    (* the polling loop did not end within the fuel *)

Arguments Ret {A} a w.
Arguments Raise {A} e w.
Arguments OutOfFuel {A}.

Definition M (A : Type) : Type := world -> outcome A.

Definition ret {A} (a : A) : M A := fun w => Ret a w.
Definition raise {A} (e : exn) : M A := fun w => Raise e w.
Definition bind {A B} (m : M A) (k : A -> M B) : M B :=
  fun w => match m w with
           | Ret a w' => k a w'
           | Raise e w' => Raise e w'
           | OutOfFuel => OutOfFuel
           end.
Definition gets {A} (f : world -> A) : M A := fun w => Ret (f w) w.
Definition modify (f : world -> world) : M unit := fun w => Ret tt (f w).

Notation "x <- m ;; k" := (bind m (fun x => k))
  (at level 61, m at next level, right associativity).
Notation "m ;; k" := (bind m (fun _ => k))
  (at level 61, right associativity).

(** for x in xs: body(x) *)
Fixpoint for_each {A} (xs : list A) (body : A -> M unit) : M unit :=
  match xs with
  | [] => ret tt
  | x :: rest => body x ;; for_each rest body
  end.

(** The world a call leaves behind, whether it returned or raised. *)
Definition after {A} (o : outcome A) (w0 : world) : world :=
  match o with
  | Ret _ w => w
  | Raise _ w => w
  | OutOfFuel => w0
  end.

(** *** Effects *)

Definition print (s : string) : M unit := modify (with_line s).

(** time.sleep(1.0) *)
Definition sleep : M unit := modify with_sleep.

(** uuid.uuid4() *)
Definition uuid4 : M ident :=
  fun w => Ret (Uuid (urandom w (drawn w))) (with_draw w).

(** combiner.set_model_id(model_id) *)
Definition call_set_model_id (c : Combiner) (id : option ident) : M unit :=
  modify (fun w => with_call (SetModelId c id) (set_model_id c id (network w)) w).

(** combiner.start(plan) *)
Definition call_start (c : Combiner) (plan : Config) : M unit :=
  modify (fun w => with_call (Start c plan) (start c plan (network w)) w).

(* ------------------------------------------------------------------ *)
(** ** ReducerControl *)

(** The reducer after [__init__], with a given state store, repository,
    network and random source. *)
Definition init (l : option ident) (s : store) (r : remote) (u : nat -> N) : world :=
  mkWorld idle [] l s r [] 0 [] u 0.

Definition get_latest_model : M (option ident) := gets latest.

(** commit(model_id, model=None) *)
Definition commit (model_id : option ident) (model : option repr) : M unit :=
  model_id' <-
    match model with
    | Some m =>
        if model_bool m then
          fun w =>
            let '(new_id, s) := set_model (repository w) (save m) in
            Ret (Some new_id) (with_repository s w)
        else ret model_id
    | None => ret model_id
    end ;;
  modify (with_latest model_id').

(** _out_of_sync(combiners=None); [None] and the empty list both stand for
    the whole registry. *)
Definition _out_of_sync (w : world) (cs : option (list Combiner)) : list Combiner :=
  let cs := match cs with
            | None | Some [] => combiners w
            | Some l => l
            end in
  filter (fun combiner => negb (py_eq (get_model_id (network w) combiner) (latest w))) cs.

Definition check_round_participation_policy
    (compute_plan : Config) (combiner_state : CombinerState) : bool :=
  if clients_required compute_plan <=? nr_active_clients combiner_state
  then true else false.

Definition check_round_start_policy {A} (combiners : list A) : bool :=
  if (0 <? length combiners)%nat then true else false.

Definition check_round_validity_policy {A} (combiners : list A) : bool :=
  if (0 <? length combiners)%nat then true else false.

(** sync_combiners(combiners, model_id) *)
Definition sync_combiners (cs : list Combiner) (model_id : option ident) : M unit :=
  if negb (id_truthy model_id) then
    print "GOT NO MODEL TO SET! Have you seeded the FedML model?"
  else
    for_each cs (fun combiner => call_set_model_id combiner model_id).

(** The body of the [try] block of [reduce]: the updated model when the
    block runs to its end, [None] when anything in it raises (the second
    [get_model()] answered [None], the helper raised, or [model] is not
    bound yet). *)
Definition try_increment (model : option repr) (again : option blob) (i : Z)
  : option repr :=
  match again with
  | None => None
  | Some buffer =>
      match load_model buffer with
      | None => None
      | Some model_next =>
          match model with
          | None => None
          | Some m => increment_average m model_next i
          end
      end
  end.

(** The loop of [reduce]; [model] is [None] while the local variable is
    unbound. *)
Fixpoint reduce_loop (cs : list Combiner) (model : option repr) (i : Z)
  : M (option repr) :=
  match cs with
  | [] => ret model
  | combiner :: rest =>
      data <- gets (fun w => get_model (network w) combiner) ;;
      match data with
      | Some buffer =>
          again <- gets (fun w => get_model (network w) combiner) ;;
          match try_increment model again i with
          | Some m => reduce_loop rest (Some m) (i + 1)
          | None =>
              match load_model buffer with
              | Some m => reduce_loop rest (Some m) (i + 1)
              | None => raise HelperError
              end
          end
      | None => reduce_loop rest model i
      end
  end.

(** reduce(combiners) *)
Definition reduce (cs : list Combiner) : M repr :=
  model <- reduce_loop cs None 1 ;;
  match model with
  | Some m => ret m
  | None => raise UnboundLocalError
  end.

(** The first loop of [round]: the combiners that pass the participation
    policy, each paired with the plan. *)
Definition participating (w : world) (compute_plan : Config)
  : list (Combiner * Config) :=
  map (fun combiner => (combiner, compute_plan))
      (filter (fun combiner =>
                 check_round_participation_policy compute_plan
                   (report (network w) combiner))
              (combiners w)).

(** The second loop of [round]: sync, then start, one combiner at a time. *)
Definition dispatch (cs : list (Combiner * Config)) : M unit :=
  for_each cs (fun '(combiner, compute_plan) =>
    l <- get_latest_model ;;
    sync_combiners [combiner] l ;;
    print "{} {}" ;;
    call_start combiner compute_plan).

(** The polling loop of [round]; the result is the value of [wait] when the
    loop is left. *)
Fixpoint wait_loop (fuel : nat) (config : Config) (cl : list Combiner)
    (n : nat) (wait : Z) : M Z :=
  fun w =>
    if (length (_out_of_sync w (Some cl)) <? n)%nat then
      match fuel with
      | O => OutOfFuel
      | S fuel' =>
          (sleep ;;
           let wait' := float_incr wait in
           if timeout_reached (round_timeout config) wait'
           then ret wait'
           else wait_loop fuel' config cl n wait') w
      end
    else Ret wait w.

(** The compute plan of a round: a copy of [config] with the keys rounds,
    task and model_id set. *)
Definition training_plan (config : Config) (l : option ident) : Config :=
  set_model_id_key l (set_task "training" (set_rounds 1 config)).

(** round(config) *)
Definition round (fuel : nat) (config : Config) : M (option ident) :=
  registry <- gets combiners ;;
  if (length registry <? 1)%nat then
    print "REDUCER: No combiners connected!" ;;
    ret None
  else
    l <- get_latest_model ;;
    let compute_plan := training_plan config l in
    combiners <- gets (fun w => participating w compute_plan) ;;
    print "PARTICIPATING: {}" ;;
    let round_start := check_round_start_policy combiners in
    print "ROUND START POLICY: {}" ;;
    if negb round_start then ret None
    else
      dispatch combiners ;;
      let cl := map fst combiners in
      _ <- wait_loop fuel config cl (length combiners) 0 ;;
      updated <- gets (fun w => _out_of_sync w None) ;;
      print "UPDATED: {}" ;;
      let round_valid := check_round_validity_policy updated in
      if negb round_valid then ret None
      else
        model <- reduce updated ;;
        if model_bool model then
          model_id <- uuid4 ;;
          commit (Some model_id) (Some model) ;;
          l' <- get_latest_model ;;
          let combiner_config := set_task "validation" (set_model_id_key l' config) in
          for_each updated (fun combiner => call_start combiner combiner_config) ;;
          ret (Some model_id)
        else
          print "REDUCER: failed to updated model in round with config {}" ;;
          ret None.

(** instruct(config) *)
Definition instruct (fuel : nat) (config : Config) : M unit :=
  s <- gets state ;;
  if ReducerState_eqb s instructing then
    print "Already set in INSTRUCTING state"
  else
    modify (with_state instructing) ;;
    l <- get_latest_model ;;
    (if negb (id_truthy l)
     then print "No model in model chain, please seed the alliance!"
     else ret tt) ;;
    modify (with_state monitoring) ;;
    for_each (seq 0 (Z.to_nat (rounds config))) (fun _ =>
      model_id <- round fuel config ;;
      if id_truthy model_id
      then print "REDUCER: Global round completed, new model: {}"
      else print "REDUCER: Global round failed!") ;;
    modify (with_state idle).

(** resolve() *)
Definition resolve : M repr :=
  cs <- gets (fun w => _out_of_sync w None) ;;
  if (0 <? length cs)%nat then reduce cs
  else raise UnboundLocalError.

(** find(name) *)
Fixpoint find_in (name0 : string) (cs : list Combiner) : option Combiner :=
  match cs with
  | [] => None
  | combiner :: rest =>
      if String.eqb name0 (name combiner) then Some combiner
      else find_in name0 rest
  end.

Definition find (w : world) (name0 : string) : option Combiner :=
  find_in name0 (combiners w).

(** add(combiner) *)
Definition add (combiner : Combiner) : M unit :=
  s <- gets state ;;
  if negb (ReducerState_eqb s idle) then
    print "Reducer is not idle, cannot add additional combiner"
  else
    found <- gets (fun w => find w (name combiner)) ;;
    match found with
    | Some _ => ret tt
    | None =>
        print "adding combiner {}" ;;
        modify (fun w => with_combiners (combiners w ++ [combiner]) w)
    end.

(** list.remove(x): drops the first element equal to x; [None] when there
    is none (Python raises ValueError). *)
Fixpoint list_remove (x : Combiner) (l : list Combiner) : option (list Combiner) :=
  match l with
  | [] => None
  | y :: rest =>
      if Combiner_eqb y x then Some rest
      else option_map (cons y) (list_remove x rest)
  end.

(** remove(combiner) *)
Definition remove (combiner : Combiner) : M unit :=
  s <- gets state ;;
  if negb (ReducerState_eqb s idle) then
    print "Reducer is not idle, cannot remove combiner"
  else
    cs <- gets combiners ;;
    match list_remove combiner cs with
    | Some cs' => modify (with_combiners cs')
    | None => raise ValueError
    end.

(** find_available_combiner() *)
Definition find_available_combiner (w : world) : option Combiner :=
  List.find (fun combiner => allowing_clients (network w) combiner) (combiners w).

(* ------------------------------------------------------------------ *)
(** ** Vocabulary of the properties *)

(** The names in the registry, in registration order. *)
Definition names (w : world) : list string := map name (combiners w).

(** A computation keeps the component [f] of the world when [f] reads the
    same after it, whether it returned or raised. *)
Definition keeps {A X} (f : world -> X) (m : M A) : Prop :=
  forall w, match m w with
            | Ret _ w' | Raise _ w' => f w' = f w
            | OutOfFuel => True
            end.

(** A component that printing, sleeping, remote calls and drawing a uuid
    leave alone. *)
Definition local_data {X} (f : world -> X) : Prop :=
  (forall s w, f (with_line s w) = f w) /\
  (forall w, f (with_sleep w) = f w) /\
  (forall c r w, f (with_call c r w) = f w) /\
  (forall w, f (with_draw w) = f w).

(** A component that, besides, a commit leaves alone. *)
Definition registry_data {X} (f : world -> X) : Prop :=
  local_data f /\
  (forall v w, f (with_latest v w) = f w) /\
  (forall v w, f (with_repository v w) = f w).

(** A computation that returns, whatever the world it starts in. *)
Definition returns {A} (m : M A) : Prop :=
  forall w, exists a w', m w = Ret a w'.

(** The world after some more lines were printed. *)
Definition with_lines (ls : list string) (w : world) : world :=
  fold_left (fun w s => with_line s w) ls w.

(** The world after [k] sleeps of one time unit. *)
Definition slept (k : nat) (w : world) : world := Nat.iter k with_sleep w.

(** The test that ends the polling loop: at least [n] of the combiners [cl]
    are out of sync. *)
Definition converged (cl : list Combiner) (n : nat) (w : world) : Prop :=
  (n <= length (_out_of_sync w (Some cl)))%nat.

(** A computation that ends, by returning or by raising, whatever the world
    it starts in. *)
Definition finishes {A} (m : M A) : Prop :=
  forall w, m w <> OutOfFuel.

(** Fuel that is enough for the polling loop of a round with a finite
    timeout: the timeout rounded up, and one more. *)
Definition wait_bound (config : Config) : nat :=
  match round_timeout config with
  | Finite q => S (Z.to_nat (Qceiling q))
  | _ => 1
  end.

(** A call of a method of the reducer, and the world it leaves. *)
Inductive call : Type :=
| CallAdd (c : Combiner)
| CallRemove (c : Combiner)
| CallCommit (id : option ident) (model : option repr)
| CallRound (fuel : nat) (config : Config)
| CallInstruct (fuel : nat) (config : Config).

Definition perform (k : call) (w : world) : world :=
  match k with
  | CallAdd c => after (add c w) w
  | CallRemove c => after (remove c w) w
  | CallCommit id model => after (commit id model w) w
  | CallRound fuel config => after (round fuel config w) w
  | CallInstruct fuel config => after (instruct fuel config w) w
  end.


(** The calls that dispatching the participants [cs] sends while the latest
    pointer is [l]: for each participant its sync call, if there is a model
    to set, and then its start call. *)
Definition dispatch_calls (l : option ident) (cs : list (Combiner * Config))
  : list rpc :=
  flat_map (fun '(c, plan) =>
              (if id_truthy l then [SetModelId c l] else []) ++ [Start c plan])
           cs.

(** Whether a combiner has a model to pull. *)
Definition has_model (w : world) (c : Combiner) : bool :=
  match get_model (network w) c with
  | Some _ => true
  | None => false
  end.

(** The model a combiner holds, as the helper loads it. *)
Definition held_model (w : world) (c : Combiner) : option repr :=
  match get_model (network w) c with
  | Some data => load_model data
  | None => None
  end.

(** The running mean of [reduce]: [acc] is the mean so far and [i] the
    number of the next model; a model that cannot be folded in takes the
    place of the mean. *)
Fixpoint fold_average (acc : repr) (i : Z) (ms : list repr) : repr :=
  match ms with
  | [] => acc
  | m :: rest =>
      fold_average (match increment_average acc m i with
                    | Some acc' => acc'
                    | None => m
                    end) (i + 1) rest
  end.

(** A computation that answers an id or None keeps the component [f] of the
    world unless it answers an id. *)
Definition keeps_unless_id {X} (f : world -> X) (m : M (option ident)) : Prop :=
  forall w, match m w with
            | Ret (Some _) _ => True
            | Ret None w' | Raise _ w' => f w' = f w
            | OutOfFuel => True
            end.

(** Whether a combiner has a model to pull that the helper cannot load. *)
Definition unloadable (w : world) (c : Combiner) : bool :=
  match get_model (network w) c with
  | Some data => match load_model data with Some _ => false | None => true end
  | None => false
  end.

End Control.

Arguments Ret {CI MR A} a w.
Arguments Raise {CI MR A} e w.
Arguments OutOfFuel {CI MR A}.

(* ------------------------------------------------------------------ *)
(** ** In-memory doubles of the collaborators, and scenarios *)

Module Scenario.

(** One remote combiner of the in-memory network. *)
Record worker : Type := mkWorker {
  w_oid : nat;
  w_active : Z;                           (* the active clients it reports *)
  w_model_id : option ident;              (* its local model id *)
  w_model : option blob;                  (* its local model *)
  w_accepting : bool;
  w_busy : bool;                          (* a started plan is running *)
  w_next : option (ident * option blob)   (* what a running plan ends with *)
}.

Definition lookup (r : list worker) (c : Combiner) : option worker :=
  List.find (fun x => Nat.eqb (w_oid x) (oid c)) r.

Definition update (r : list worker) (c : Combiner) (f : worker -> worker)
  : list worker :=
  map (fun x => if Nat.eqb (w_oid x) (oid c) then f x else x) r.

(** A busy worker ends its plan within one time unit. *)
Definition finish (x : worker) : worker :=
  if w_busy x then
    match w_next x with
    | Some (id, b) =>
        mkWorker (w_oid x) (w_active x) (Some id) b (w_accepting x) false None
    | None => x
    end
  else x.

Definition net : CombinerInterface := {|
  remote := list worker;
  report r c :=
    mkCombinerState (match lookup r c with Some x => w_active x | None => 0 end);
  get_model_id r c :=
    match lookup r c with Some x => w_model_id x | None => None end;
  get_model r c :=
    match lookup r c with Some x => w_model x | None => None end;
  allowing_clients r c :=
    match lookup r c with Some x => w_accepting x | None => false end;
  set_model_id c id r :=
    update r c (fun x => mkWorker (w_oid x) (w_active x) id (w_model x)
                                  (w_accepting x) (w_busy x) (w_next x));
  start c plan r :=
    update r c (fun x => mkWorker (w_oid x) (w_active x) (w_model_id x) (w_model x)
                                  (w_accepting x) true (w_next x));
  elapse r := map finish r
|}.

Fixpoint unary (n : nat) : string :=
  match n with
  | O => EmptyString
  | S k => String.append "1" (unary k)
  end.

(** A model with one integer weight, written in unary; the empty file does
    not load. *)
Definition helper : Helper := {|
  repr := Z;
  load_model b :=
    if String.eqb b EmptyString then None else Some (Z.of_nat (String.length b));
  increment_average m model_next i :=
    if i =? 0 then None else Some (m + (model_next - m) / i);
  save m := unary (Z.to_nat m);
  model_bool _ := true
|}.

(** A repository that names the k-th stored file by k strokes. *)
Definition repo : ModelRepository := {|
  store := list (ident * blob);
  set_model s b :=
    let id := Token (unary (S (length s))) in (id, (id, b) :: s);
  stored_ids s := map fst s
|}.

Definition W1 : Combiner := mkCombiner "W1" 1.
Definition W2 : Combiner := mkCombiner "W2" 2.

Definition A0 : ident := Token "1".
Definition A1 : ident := Token "A1".

(** Three active clients required, a timeout of two time units, one round. *)
Definition plan3 : Config := mkConfig 1 (2 # 1) 3 None None [].

Definition reducer (registry : list Combiner) (r : list worker)
  : @world net repo :=
  @mkWorld net repo idle registry (Some A0) [(A0, "111")] r [] 0 [] N.of_nat 0.

(** W1 reports five active clients and ends a started plan with the model
    A1; W2 reports none. *)
Definition converging : list worker :=
  [ mkWorker 1 5 (Some A0) (Some "111") true false (Some (A1, Some "11111"));
    mkWorker 2 0 (Some A0) (Some "111") true false None ].

(** W1 never ends its plan. *)
Definition stuck : list worker :=
  [ mkWorker 1 5 (Some A0) (Some "111") true false None;
    mkWorker 2 0 (Some A0) (Some "111") true false None ].

(** W1 ends its plan with a new model id and no model to pull. *)
Definition hollow : list worker :=
  [ mkWorker 1 5 (Some A0) (Some "111") true false (Some (A1, None)) ].

(** A third combiner, and a second handle that bears the name of W1. *)
Definition W3 : Combiner := mkCombiner "W3" 3.
Definition W1' : Combiner := mkCombiner "W1" 7.

(** W1 holds a model of weight two, W2 one of weight six, W3 none. *)
Definition pair : list worker :=
  [ mkWorker 1 5 (Some A1) (Some "11") true false None;
    mkWorker 2 5 (Some A1) (Some "111111") true false None;
    mkWorker 3 5 (Some A1) None false false None ].

(** The configuration [plan3] with a timeout of inf, of nan, and of
    2^53 + 1. *)
Definition plan_inf : Config := mkConfig 1 PosInf 3 None None [].
Definition plan_nan : Config := mkConfig 1 NaN 3 None None [].
Definition plan_big : Config :=
  mkConfig 1 (Finite (inject_Z (float_limit + 1))) 3 None None [].

(** W1 converges when started; W2, which reports no client and is not
    started, holds a model of its own from an earlier round. *)
Definition straggling : list worker :=
  [ mkWorker 1 5 (Some A0) (Some "111") true false (Some (A1, Some "11111"));
    mkWorker 2 0 (Some A1) (Some "1") true false None ].

(** The configuration [plan3] with no round to run. *)
Definition plan0 : Config := mkConfig 0 (2 # 1) 3 None None [].

End Scenario.


(* ------------------------------------------------------------------ *)
(** ** Properties *)

Section Properties.

Context {CI : CombinerInterface} {H : Helper} {MR : ModelRepository}.

Notation "x <- m ;; k" := (bind m (fun x => k))
  (at level 61, m at next level, right associativity).
Notation "m ;; k" := (bind m (fun _ => k))
  (at level 61, right associativity).

(** *** Equality tests *)

Lemma ReducerState_eqb_eq (a b : ReducerState) :
  ReducerState_eqb a b = true <-> a = b.
Proof. destruct a, b; simpl; split; congruence. Qed.

Lemma ReducerState_eqb_neq (a b : ReducerState) :
  ReducerState_eqb a b = false <-> a <> b.
Proof. destruct a, b; simpl; split; congruence. Qed.

Lemma Combiner_eqb_eq (a b : Combiner) : Combiner_eqb a b = true <-> a = b.
Proof.
  destruct a as [na oa], b as [nb ob]; unfold Combiner_eqb; simpl.
  rewrite andb_true_iff, Nat.eqb_eq, String.eqb_eq.
  split; [intros [-> ->]; reflexivity | intros E; inversion E; auto].
Qed.

(** *** What a computation keeps *)

Lemma keeps_ret {A X} (f : world -> X) (a : A) : keeps f (ret a).
Proof. intros w; reflexivity. Qed.

Lemma keeps_raise {A X} (f : world -> X) (e : exn) : keeps f (@raise _ _ A e).
Proof. intros w; reflexivity. Qed.

Lemma keeps_gets {A X} (f : world -> X) (g : world -> A) : keeps f (gets g).
Proof. intros w; reflexivity. Qed.

Lemma keeps_bind {A B X} (f : world -> X) (m : M A) (k : A -> M B) :
  keeps f m -> (forall a, keeps f (k a)) -> keeps f (bind m k).
Proof.
  intros Hm Hk w; unfold bind.
  specialize (Hm w); destruct (m w) as [a w1 | e w1 | ]; auto.
  specialize (Hk a w1); destruct (k a w1); auto; congruence.
Qed.

Lemma keeps_for_each {A X} (f : world -> X) (xs : list A) (body : A -> M unit) :
  (forall x, keeps f (body x)) -> keeps f (for_each xs body).
Proof.
  intros Hb; induction xs as [| x rest IH]; simpl.
  - apply keeps_ret.
  - apply keeps_bind; auto.
Qed.

Lemma keeps_print {X} (f : world -> X) (s : string) :
  local_data f -> keeps f (print s).
Proof. intros (Hl & _) w; simpl; apply Hl. Qed.

Lemma keeps_sleep {X} (f : world -> X) : local_data f -> keeps f sleep.
Proof. intros (_ & Hs & _) w; simpl; apply Hs. Qed.

Lemma keeps_uuid4 {X} (f : world -> X) : local_data f -> keeps f uuid4.
Proof. intros (_ & _ & _ & Hd) w; simpl; apply Hd. Qed.

Lemma keeps_call_set_model_id {X} (f : world -> X) c id :
  local_data f -> keeps f (call_set_model_id c id).
Proof. intros (_ & _ & Hc & _) w; simpl; apply Hc. Qed.

Lemma keeps_call_start {X} (f : world -> X) c plan :
  local_data f -> keeps f (call_start c plan).
Proof. intros (_ & _ & Hc & _) w; simpl; apply Hc. Qed.

Lemma local_state : registry_data state.
Proof. repeat split. Qed.
Lemma local_combiners : registry_data combiners.
Proof. repeat split. Qed.
Lemma local_latest : local_data latest.
Proof. repeat split. Qed.
Lemma local_repository : local_data repository.
Proof. repeat split. Qed.

(** One step of a proof that a computation keeps a component of the world
    that the effects at hand leave alone. *)
Ltac keeps_step :=
  first
    [ apply keeps_ret | apply keeps_raise | apply keeps_gets
    | apply keeps_print; assumption
    | apply keeps_sleep; assumption
    | apply keeps_uuid4; assumption
    | apply keeps_call_set_model_id; assumption
    | apply keeps_call_start; assumption
    | apply keeps_bind; [| intro]
    | apply keeps_for_each; intro
    | match goal with
      | |- keeps _ (if ?b then _ else _) => destruct b
      end ].

Lemma keeps_sync_combiners {X} (f : world -> X) cs id :
  local_data f -> keeps f (sync_combiners cs id).
Proof.
  intros Hf; unfold sync_combiners; destruct (negb (id_truthy id)).
  - apply keeps_print; assumption.
  - apply keeps_for_each; intros c; apply keeps_call_set_model_id; assumption.
Qed.

Lemma keeps_dispatch {X} (f : world -> X) cs :
  local_data f -> keeps f (dispatch cs).
Proof.
  intros Hf; unfold dispatch; apply keeps_for_each; intros [c plan].
  repeat first [ apply keeps_sync_combiners; assumption | keeps_step ].
Qed.

Lemma keeps_wait_loop {X} (f : world -> X) fuel config cl n wait :
  local_data f -> keeps f (wait_loop fuel config cl n wait).
Proof.
  intros Hf; revert wait; induction fuel as [| fuel IH]; intros wait w; simpl.
  - destruct (_ <? _)%nat; auto.
  - destruct (_ <? _)%nat; auto.
    apply (keeps_bind f sleep); [apply keeps_sleep; assumption | intros _].
    destruct (timeout_reached _ _); [apply keeps_ret | apply IH].
Qed.

Lemma keeps_reduce_loop {X} (f : world -> X) cs model i :
  keeps f (reduce_loop cs model i).
Proof.
  revert model i; induction cs as [| c rest IH]; intros model i; simpl.
  - apply keeps_ret.
  - apply keeps_bind; [apply keeps_gets | intros [buffer |]]; [| apply IH].
    apply keeps_bind; [apply keeps_gets | intros again].
    destruct (try_increment model again i); [apply IH |].
    destruct (load_model buffer); [apply IH | apply keeps_raise].
Qed.

Lemma keeps_reduce {X} (f : world -> X) cs : keeps f (reduce cs).
Proof.
  unfold reduce; apply keeps_bind; [apply keeps_reduce_loop | intros [m |]];
    [apply keeps_ret | apply keeps_raise].
Qed.

Lemma keeps_commit {X} (f : world -> X) id model :
  registry_data f -> keeps f (commit id model).
Proof.
  intros (_ & Hl & Hr) w; unfold commit, bind, modify, ret.
  destruct model as [m |]; [destruct (model_bool m) |]; simpl; try apply Hl.
  destruct (set_model (repository w) (save m)) as [new_id s]; simpl.
  rewrite Hl; apply Hr.
Qed.

Lemma keeps_round {X} (f : world -> X) fuel config :
  registry_data f -> keeps f (round fuel config).
Proof.
  intros Hf; pose proof Hf as (Hio & _); unfold round.
  repeat first
    [ apply keeps_dispatch; assumption
    | apply keeps_wait_loop; assumption
    | apply keeps_reduce
    | apply keeps_commit; assumption
    | keeps_step ].
Qed.

Lemma keeps_modify_state {X} (f : world -> X) v :
  (forall w, f (with_state v w) = f w) -> keeps f (modify (with_state v)).
Proof. intros Hs w; simpl; apply Hs. Qed.

Lemma instruct_keeps_combiners fuel config :
  keeps combiners (instruct fuel config).
Proof.
  pose proof local_combiners as Hf; pose proof Hf as (Hio & _); unfold instruct.
  repeat first
    [ apply keeps_round; assumption
    | apply keeps_modify_state; reflexivity
    | keeps_step ].
Qed.

(** *** The registry *)

Lemma find_in_none (n : string) (cs : list Combiner) :
  find_in n cs = None <-> ~ In n (map name cs).
Proof.
  induction cs as [| c rest IH]; simpl; [tauto |].
  destruct (String.eqb n (name c)) eqn:E.
  - apply String.eqb_eq in E; split; [discriminate | intros N; exfalso; auto].
  - apply String.eqb_neq in E; rewrite IH; split; [intros N [E' | I]; auto | tauto].
Qed.

Lemma list_remove_none (x : Combiner) (l : list Combiner) :
  list_remove x l = None <-> ~ In x l.
Proof.
  induction l as [| y rest IH]; simpl; [tauto |].
  destruct (Combiner_eqb y x) eqn:E.
  - apply Combiner_eqb_eq in E; split; [discriminate | intros N; exfalso; auto].
  - assert (y <> x) by (intros E'; apply Combiner_eqb_eq in E'; congruence).
    destruct (list_remove x rest) as [l |]; simpl.
    + split; [discriminate | intros N].
      assert (None = Some l) as E' by (symmetry; apply IH; tauto); discriminate.
    + split; [intros _ [E' | I]; [auto | apply (proj1 IH); auto] | reflexivity].
Qed.

Lemma list_remove_names (x : Combiner) (l l' : list Combiner) :
  list_remove x l = Some l' -> NoDup (map name l) -> NoDup (map name l').
Proof.
  revert l'; induction l as [| y rest IH]; simpl; intros l' E D; [discriminate |].
  inversion D as [| ? ? Hy Hrest]; subst.
  destruct (Combiner_eqb y x); [inversion E; subst; assumption |].
  destruct (list_remove x rest) as [r |] eqn:R; simpl in E; inversion E; subst.
  simpl; constructor; [| apply IH; auto].
  intros I; apply Hy; clear - R I.
  revert r R I; induction rest as [| z rest IH]; simpl; intros r R I; [discriminate |].
  destruct (Combiner_eqb z x); [inversion R; subst; right; assumption |].
  destruct (list_remove x rest) as [r' |]; simpl in R; inversion R; subst.
  destruct I as [E | I]; [left; assumption | right; eapply IH; eauto].
Qed.

Lemma NoDup_snoc {A} (x : A) (l : list A) :
  NoDup l -> ~ In x l -> NoDup (l ++ [x]).
Proof.
  induction l as [| y rest IH]; simpl; intros D N.
  - constructor; [intros [] | constructor].
  - inversion D as [| ? ? Hy Hrest]; subst; constructor.
    + rewrite in_app_iff; simpl; intros [I | [E | []]]; [auto | subst; auto].
    + apply IH; auto.
Qed.

Lemma add_not_idle (c : Combiner) (w : world) :
  state w <> idle ->
  add c w = Ret tt (with_line "Reducer is not idle, cannot add additional combiner" w).
Proof.
  intros N; apply ReducerState_eqb_neq in N.
  unfold add, bind, gets; rewrite N; reflexivity.
Qed.

Lemma add_known_name (c : Combiner) (w : world) :
  state w = idle -> In (name c) (names w) -> add c w = Ret tt w.
Proof.
  intros E I; unfold add, bind, gets; rewrite E; simpl.
  destruct (find w (name c)) eqn:F; [reflexivity |].
  apply find_in_none in F; contradiction.
Qed.

Lemma add_new_name (c : Combiner) (w : world) :
  state w = idle -> ~ In (name c) (names w) ->
  add c w = Ret tt (with_combiners (combiners w ++ [c])
                      (with_line "adding combiner {}" w)).
Proof.
  intros E I; unfold add, bind, gets; rewrite E; simpl.
  apply find_in_none in I; unfold find; rewrite I; reflexivity.
Qed.

Lemma keeps_after {A X} (f : world -> X) (m : M A) (w : world) :
  keeps f m -> f (after (m w) w) = f w.
Proof. intros K; specialize (K w); destruct (m w); simpl; auto. Qed.

Lemma perform_names (k : call) (w : world) :
  NoDup (names w) -> NoDup (names (perform k w)).
Proof.
  intros D; destruct k as [c | c | id model | fuel config | fuel config]; simpl.
  - destruct (ReducerState_eqb (state w) idle) eqn:E.
    + apply ReducerState_eqb_eq in E.
      destruct (in_dec string_dec (name c) (names w)) as [I | I].
      * rewrite add_known_name by assumption; assumption.
      * rewrite add_new_name by assumption; unfold names; simpl.
        rewrite map_app; simpl; apply NoDup_snoc; assumption.
    + apply ReducerState_eqb_neq in E; rewrite add_not_idle by assumption.
      assumption.
  - unfold remove, bind, gets.
    destruct (negb (ReducerState_eqb (state w) idle)); [assumption |].
    destruct (list_remove c (combiners w)) as [cs' |] eqn:R; simpl; [| assumption].
    unfold names; simpl; eapply list_remove_names; eauto.
  - unfold names; rewrite (keeps_after combiners); auto.
    apply keeps_commit, local_combiners.
  - unfold names; rewrite (keeps_after combiners); auto.
    apply keeps_round, local_combiners.
  - unfold names; rewrite (keeps_after combiners); auto.
    apply instruct_keeps_combiners.
Qed.

(** C7. Names in the registry are unique.  [add] prints and changes nothing
    when the reducer is not idle, changes nothing when a handle of that name
    is registered, and appends the handle otherwise; every call of a method
    of the reducer (add, remove, commit, round, instruct) keeps the names of
    the registry free of duplicates, and so does every sequence of such
    calls on a new reducer. *)
Theorem registry_names_unique :
  (forall c w, state w <> idle ->
     add c w = Ret tt (with_line "Reducer is not idle, cannot add additional combiner" w)) /\
  (forall c w, state w = idle -> In (name c) (names w) -> add c w = Ret tt w) /\
  (forall c w, state w = idle -> ~ In (name c) (names w) ->
     add c w = Ret tt (with_combiners (combiners w ++ [c])
                         (with_line "adding combiner {}" w))) /\
  (forall k w, NoDup (names w) -> NoDup (names (perform k w))) /\
  (forall ks l s r u,
     NoDup (names (fold_left (fun w k => perform k w) ks (init l s r u)))).
Proof.
  split; [exact add_not_idle |].
  split; [exact add_known_name |].
  split; [exact add_new_name |].
  split; [exact perform_names |].
  intros ks l s r u.
  assert (NoDup (names (init l s r u))) as D by constructor.
  revert D; generalize (init l s r u).
  induction ks as [| k rest IH]; intros w D; simpl; [assumption |].
  apply IH, perform_names, D.
Qed.

(** *** remove *)

Lemma list_remove_first (c : Combiner) (l : list Combiner) :
  In c l ->
  exists before rest,
    l = before ++ c :: rest /\ ~ In c before /\
    list_remove c l = Some (before ++ rest).
Proof.
  induction l as [| x xs IH]; simpl; intros I; [contradiction |].
  destruct (Combiner_eqb x c) eqn:E.
  - apply Combiner_eqb_eq in E; subst x.
    exists [], xs; repeat split; auto.
  - assert (x <> c) as N by (intros Q; apply Combiner_eqb_eq in Q; congruence).
    destruct I as [Q | I]; [contradiction |].
    destruct (IH I) as (before & rest & -> & Nb & R).
    exists (x :: before), rest; rewrite R; repeat split.
    simpl; intros [Q | Q]; [apply N, Q | apply Nb, Q].
Qed.

(** C6 (amended). [remove] prints and leaves the registry alone when the
    reducer is not idle.  When the reducer is idle and the handle is not in
    the registry, [remove] raises ValueError, prints nothing and leaves the
    world as it was; when the handle is in the registry, its first
    occurrence is dropped: the handles before it, none of which is the
    handle, and the handles after it stay, in their order. *)
Theorem remove_guarded (c : Combiner) (w : world) :
  (state w <> idle ->
     remove c w = Ret tt (with_line "Reducer is not idle, cannot remove combiner" w) /\
     combiners (after (remove c w) w) = combiners w) /\
  (state w = idle -> ~ In c (combiners w) -> remove c w = Raise ValueError w) /\
  (state w = idle -> In c (combiners w) ->
     exists before rest,
       combiners w = before ++ c :: rest /\
       ~ In c before /\
       remove c w = Ret tt (with_combiners (before ++ rest) w)).
Proof.
  unfold remove, bind, gets; split; [| split].
  - intros N; apply ReducerState_eqb_neq in N; rewrite N; split; reflexivity.
  - intros E N; rewrite E; simpl.
    apply list_remove_none in N; rewrite N; reflexivity.
  - intros E I; rewrite E; simpl.
    destruct (list_remove_first c (combiners w) I) as (before & rest & L & N & R).
    exists before, rest; split; [exact L |]; split; [exact N |].
    rewrite R; reflexivity.
Qed.

(** *** commit *)

(** C10. [commit(model_id)] without a model sets the latest pointer to the
    id the caller gave and stores nothing in the repository; nothing else
    changes. *)
Theorem commit_without_model (id : option ident) (w : world) :
  commit id None w = Ret tt (with_latest id w) /\
  latest (with_latest id w) = id /\
  repository (with_latest id w) = repository w.
Proof. repeat split. Qed.

(** *** reduce *)

(** C8. Aggregation over one combiner whose model loads returns that
    model, as the helper loads it. *)
Theorem reduce_single (c : Combiner) (w : world) (data : blob) (m : repr) :
  get_model (network w) c = Some data ->
  load_model data = Some m ->
  reduce [c] w = Ret m w.
Proof.
  intros G L; unfold reduce, reduce_loop, bind, gets; rewrite G, L.
  unfold try_increment; rewrite G, L; reflexivity.
Qed.

(** Aggregation over combiners none of which has a model to pull ends in
    UnboundLocalError: the local variable [model] was never assigned. *)
Lemma reduce_nothing_usable (cs : list Combiner) (w : world) :
  (forall c, In c cs -> get_model (network w) c = None) ->
  reduce cs w = Raise UnboundLocalError w.
Proof.
  intros N; unfold reduce, bind.
  assert (reduce_loop cs None 1 w = Ret None w) as ->; [| reflexivity].
  generalize 1; induction cs as [| c rest IH]; intros i; simpl; [reflexivity |].
  unfold bind, gets; rewrite (N c) by (left; reflexivity).
  apply IH; intros c' I; apply N; right; assumption.
Qed.

(** *** The policies *)

Lemma participation_iff (plan : Config) (st : CombinerState) :
  check_round_participation_policy plan st = true <->
  clients_required plan <= nr_active_clients st.
Proof.
  unfold check_round_participation_policy.
  destruct (Z.leb_spec (clients_required plan) (nr_active_clients st));
    split; intros; try reflexivity; try discriminate; lia.
Qed.

Lemma round_start_iff {A} (cs : list A) :
  check_round_start_policy cs = true <-> cs <> [].
Proof. destruct cs; cbv; split; congruence. Qed.


(** *** Computations that return *)

Lemma bind_Ret {A B} (m : M A) (k : A -> M B) (w : world) (a : A) (w' : world) :
  m w = Ret a w' -> bind m k w = k a w'.
Proof. intros E; unfold bind; rewrite E; reflexivity. Qed.

Lemma returns_bind {A B} (m : M A) (k : A -> M B) :
  returns m -> (forall a, returns (k a)) -> returns (bind m k).
Proof.
  intros Hm Hk w; unfold bind.
  destruct (Hm w) as (a & w1 & ->); apply Hk.
Qed.

Lemma returns_modify (f : world -> world) : returns (modify f).
Proof. intros w; eexists; eexists; reflexivity. Qed.

Lemma returns_for_each {A} (xs : list A) (body : A -> M unit) :
  (forall x, returns (body x)) -> returns (for_each xs body).
Proof.
  intros Hb; induction xs as [| x rest IH]; simpl.
  - intros w; eexists; eexists; reflexivity.
  - apply returns_bind; auto.
Qed.

Lemma returns_dispatch (cs : list (Combiner * Config)) : returns (dispatch cs).
Proof.
  unfold dispatch; apply returns_for_each; intros [c plan].
  apply returns_bind; [intros w; eexists; eexists; reflexivity | intros l].
  apply returns_bind; [| intros _; apply returns_bind; intros; apply returns_modify].
  unfold sync_combiners; destruct (negb _); [apply returns_modify |].
  apply returns_for_each; intros x; apply returns_modify.
Qed.

(** *** The polling loop *)

Lemma timeout_not_reached (t : Q) (k : Z) :
  Qle_bool t (inject_Z k) = false -> k < Qceiling t.
Proof.
  intros E; destruct (Z_lt_le_dec k (Qceiling t)) as [L | L]; [assumption |].
  exfalso; assert (Qle_bool t (inject_Z k) = true); [| congruence].
  apply Qle_bool_iff; apply Qle_trans with (inject_Z (Qceiling t)).
  - apply Qle_ceiling.
  - rewrite <- Zle_Qle; assumption.
Qed.


Lemma timeout_below_limit (t : Q) :
  (t <= inject_Z float_limit)%Q -> Qceiling t <= float_limit.
Proof.
  intros B; rewrite <- (Qceiling_Z float_limit); apply Qceiling_resp_le; exact B.
Qed.

Lemma float_incr_below (wait : Z) : wait < float_limit -> float_incr wait = wait + 1.
Proof.
  intros B; unfold float_incr.
  destruct (Z.ltb_spec wait float_limit); [reflexivity | lia].
Qed.

Lemma wait_loop_ends (config : Config) (cl : list Combiner) (n : nat) (t : Q) :
  round_timeout config = Finite t ->
  Qceiling t <= float_limit ->
  forall fuel wait w,
    (1 <= fuel)%nat ->
    Qceiling t - wait <= Z.of_nat fuel ->
    wait < float_limit ->
    exists k : nat,
      wait_loop fuel config cl n wait w = Ret (wait + Z.of_nat k) (slept k w) /\
      (converged cl n (slept k w) \/
       (1 <= k)%nat /\ (t <= inject_Z (wait + Z.of_nat k))%Q) /\
      (forall j : nat, (j < k)%nat ->
         ~ converged cl n (slept j w) /\
         ((1 <= j)%nat -> ~ (t <= inject_Z (wait + Z.of_nat j))%Q)) /\
      wait + Z.of_nat k <= Z.max (wait + 1) (Qceiling t).
Proof.
  intros Ht Hlim.
  induction fuel as [| fuel IH]; intros wait w F B W; [lia |].
  simpl; destruct (_ <? n)%nat eqn:C.
  - apply Nat.ltb_lt in C.
    unfold bind, sleep, modify.
    rewrite Ht, (float_incr_below wait W); unfold timeout_reached.
    destruct (Qle_bool t (inject_Z (wait + 1))) eqn:T.
    + exists 1%nat; split; [reflexivity |].
      split; [right; split; [lia | apply Qle_bool_iff; assumption] |].
      split; [| lia].
      intros j J; assert (j = 0%nat) as -> by lia; split; [| lia].
      unfold converged; simpl; lia.
    + pose proof (timeout_not_reached _ _ T) as T'.
      destruct (IH (wait + 1) (with_sleep w)) as (k & E & X & Y & R);
        [lia | lia | lia |].
      exists (S k); unfold slept in *; rewrite Nat.iter_succ_r.
      replace (wait + Z.of_nat (S k)) with (wait + 1 + Z.of_nat k) by lia.
      split; [exact E |].
      split; [destruct X as [X | [X1 X2]]; [left; exact X | right; split; [lia | exact X2]] |].
      split; [| lia].
      intros [| j] J.
      * split; [unfold converged; simpl; lia | lia].
      * rewrite Nat.iter_succ_r.
        destruct (Y j) as [Y1 Y2]; [lia |]; split; [exact Y1 | intros _].
        replace (wait + Z.of_nat (S j)) with (wait + 1 + Z.of_nat j) by lia.
        destruct j as [| j]; [| apply Y2; lia].
        replace (wait + 1 + Z.of_nat 0) with (wait + 1) by lia.
        intros A; apply Qle_bool_iff in A; congruence.
  - apply Nat.ltb_ge in C.
    exists 0%nat; replace (wait + Z.of_nat 0) with wait by lia.
    split; [reflexivity |]; split; [left; exact C |]; split; [| lia].
    intros j J; lia.
Qed.


(** The polling loop never returns when the dispatched combiners never
    converge and the counter never reaches the timeout. *)
Lemma wait_loop_diverges (config : Config) (cl : list Combiner) (n : nat) :
  forall fuel wait w,
    (forall k, ~ converged cl n (slept k w)) ->
    (forall k, timeout_reached (round_timeout config)
                 (Nat.iter (S k) float_incr wait) = false) ->
    wait_loop fuel config cl n wait w = OutOfFuel.
Proof.
  induction fuel as [| fuel IH]; intros wait w C T; simpl.
  - assert ((length (_out_of_sync w (Some cl)) <? n)%nat = true) as ->;
      [| reflexivity].
    apply Nat.ltb_lt; specialize (C 0%nat); unfold converged in C; simpl in C; lia.
  - assert ((length (_out_of_sync w (Some cl)) <? n)%nat = true) as ->.
    { apply Nat.ltb_lt; specialize (C 0%nat); unfold converged in C; simpl in C; lia. }
    unfold bind, sleep, modify.
    rewrite (T 0%nat : timeout_reached _ (float_incr wait) = false).
    apply IH.
    + intros k; specialize (C (S k)); unfold slept in *.
      rewrite Nat.iter_succ_r in C; exact C.
    + intros k; specialize (T (S k)).
      rewrite Nat.iter_succ_r in T; exact T.
Qed.

Lemma float_incr_iter_bounded (k : nat) (wait : Z) :
  wait <= float_limit -> Nat.iter k float_incr wait <= float_limit.
Proof.
  intros B; induction k as [| k IH]; [exact B |].
  rewrite Nat.iter_succ; set (x := Nat.iter k float_incr wait) in *.
  unfold float_incr; destruct (Z.ltb_spec x float_limit); lia.
Qed.

(** *** Rounds end *)


Lemma finishes_ret {A} (a : A) : finishes (ret a).
Proof. intros w; discriminate. Qed.

Lemma finishes_raise {A} (e : exn) : finishes (@raise _ _ A e).
Proof. intros w; discriminate. Qed.

Lemma finishes_gets {A} (g : world -> A) : finishes (gets g).
Proof. intros w; discriminate. Qed.


Lemma finishes_bind {A B} (m : M A) (k : A -> M B) :
  finishes m -> (forall a, finishes (k a)) -> finishes (bind m k).
Proof.
  intros Hm Hk w; unfold bind.
  specialize (Hm w); destruct (m w) as [a w1 | e w1 |];
    [apply Hk | discriminate | congruence].
Qed.



Lemma finishes_reduce (cs : list Combiner) : finishes (reduce cs).
Proof.
  unfold reduce; apply finishes_bind;
    [| intros [m |]; [apply finishes_ret | apply finishes_raise]].
  generalize (@None repr) 1.
  induction cs as [| c rest IH]; intros model i; simpl; [apply finishes_ret |].
  apply finishes_bind; [apply finishes_gets | intros [buffer |]]; [| apply IH].
  apply finishes_bind; [apply finishes_gets | intros again].
  destruct (try_increment model again i); [apply IH |].
  destruct (load_model buffer); [apply IH | apply finishes_raise].
Qed.





(** *** The state of the reducer *)

(** [instruct] never leaves the reducer in the instructing state: it is
    rejected, or it ends idle, or an exception leaves it monitoring. *)
Lemma instruct_state (fuel : nat) (config : Config) (w : world) :
  state w <> instructing ->
  match instruct fuel config w with
  | Ret _ w' => state w' = idle
  | Raise _ w' => state w' = monitoring
  | OutOfFuel => True
  end.
Proof.
  intros N; apply ReducerState_eqb_neq in N; unfold instruct.
  rewrite (bind_Ret _ _ w (state w) w) by reflexivity; rewrite N.
  rewrite (bind_Ret _ _ w tt (with_state instructing w)) by reflexivity.
  rewrite (bind_Ret _ _ _ (latest w) (with_state instructing w)) by reflexivity.
  set (w1 := with_state instructing w).
  assert (exists w2, (if negb (id_truthy (latest w))
                      then print "No model in model chain, please seed the alliance!"
                      else ret tt) w1 = Ret tt w2) as (w2 & E)
    by (destruct (negb _); eexists; reflexivity).
  rewrite (bind_Ret _ _ _ tt w2) by exact E.
  rewrite (bind_Ret _ _ _ tt (with_state monitoring w2)) by reflexivity.
  unfold bind at 1.
  match goal with
  | |- context [for_each ?xs ?body ?x] =>
      assert (keeps state (for_each xs body)) as K;
      [| specialize (K x); destruct (for_each xs body x);
         [reflexivity | exact K | exact I] ]
  end.
  apply keeps_for_each; intros _.
  apply keeps_bind; [apply keeps_round, local_state | intros id].
  destruct (id_truthy id); apply keeps_print, local_state.
Qed.

Lemma perform_state (k : call) (w : world) :
  state w <> instructing -> state (perform k w) <> instructing.
Proof.
  intros N; destruct k as [c | c | id model | fuel config | fuel config]; simpl.
  - destruct (ReducerState_eqb (state w) idle) eqn:E.
    + apply ReducerState_eqb_eq in E.
      destruct (in_dec string_dec (name c) (names w)) as [I | I].
      * rewrite add_known_name by assumption; assumption.
      * rewrite add_new_name by assumption; assumption.
    + apply ReducerState_eqb_neq in E; rewrite add_not_idle by assumption.
      assumption.
  - unfold remove, bind, gets.
    destruct (negb (ReducerState_eqb (state w) idle)); [assumption |].
    destruct (list_remove c (combiners w)); assumption.
  - rewrite (keeps_after state); [assumption | apply keeps_commit, local_state].
  - rewrite (keeps_after state); [assumption | apply keeps_round, local_state].
  - pose proof (instruct_state fuel config w N) as S.
    destruct (instruct fuel config w); simpl; try congruence.
Qed.

(** The instructing state is not seen between calls: after any sequence of
    calls on a new reducer the state is idle or monitoring. *)
Lemma never_instructing (ks : list call) l s r u :
  state (fold_left (fun w k => perform k w) ks (init l s r u)) <> instructing.
Proof.
  assert (state (init l s r u) <> instructing) as N by discriminate.
  revert N; generalize (init l s r u).
  induction ks as [| k rest IH]; intros w N; simpl; [assumption |].
  apply IH, perform_state, N.
Qed.

(** *** A round *)

Lemma round_no_combiners (fuel : nat) (config : Config) (w : world) :
  combiners w = [] ->
  round fuel config w = Ret None (with_line "REDUCER: No combiners connected!" w).
Proof. intros E; unfold round, bind, gets; rewrite E; reflexivity. Qed.

Lemma with_lines_eq (ls : list string) (w : world) :
  with_lines ls w =
  mkWorld (state w) (combiners w) (latest w) (repository w) (network w) (sent w)
          (clock w) (stdout w ++ ls) (urandom w) (drawn w).
Proof.
  unfold with_lines; revert w; induction ls as [| s rest IH]; intros w; simpl.
  - rewrite app_nil_r; destruct w; reflexivity.
  - rewrite IH; simpl; rewrite <- app_assoc; reflexivity.
Qed.

(** The rounds of [instruct] on an empty registry: two lines per round. *)
Lemma rounds_no_combiners (fuel : nat) (config : Config) (xs : list nat) :
  forall w, combiners w = [] ->
    for_each xs (fun _ =>
      model_id <- round fuel config ;;
      if id_truthy model_id
      then print "REDUCER: Global round completed, new model: {}"
      else print "REDUCER: Global round failed!") w
    = Ret tt (with_lines
                (concat (repeat ["REDUCER: No combiners connected!";
                                 "REDUCER: Global round failed!"] (length xs))) w).
Proof.
  induction xs as [| x rest IH]; intros w E; simpl; [reflexivity |].
  unfold bind at 1 2; rewrite round_no_combiners by assumption; simpl.
  rewrite IH by assumption; reflexivity.
Qed.

(** C4. [instruct] on an empty registry returns with the reducer idle,
    whatever the configuration.  Each of its rounds stops at the test for an
    empty registry, so the output is the two lines of a failed round, once
    per round; no call is sent to a combiner, no time is spent waiting, and
    the latest pointer and the repository are as they were.  This holds in
    every world whose state is not instructing, the one state in which
    [instruct] refuses to run; and no sequence of calls on a new reducer
    ends in that state. *)
Theorem instruct_without_combiners (fuel : nat) (config : Config) :
  (forall w,
     combiners w = [] ->
     state w <> instructing ->
     exists w',
       instruct fuel config w = Ret tt w' /\
       state w' = idle /\
       combiners w' = [] /\
       latest w' = latest w /\
       repository w' = repository w /\
       sent w' = sent w /\
       network w' = network w /\
       clock w' = clock w /\
       stdout w' =
         stdout w
         ++ (if id_truthy (latest w) then []
             else ["No model in model chain, please seed the alliance!"])
         ++ concat (repeat ["REDUCER: No combiners connected!";
                            "REDUCER: Global round failed!"]
                           (Z.to_nat (rounds config)))) /\
  (forall ks l s r u,
     state (fold_left (fun w k => perform k w) ks (init l s r u)) <> instructing).
Proof.
  split; [| exact never_instructing].
  intros w E N; apply ReducerState_eqb_neq in N.
  set (ls := if id_truthy (latest w) then []
             else ["No model in model chain, please seed the alliance!"]).
  set (w1 := with_state monitoring (with_lines ls (with_state instructing w))).
  set (rs := concat (repeat ["REDUCER: No combiners connected!";
                              "REDUCER: Global round failed!"]
                             (Z.to_nat (rounds config)))).
  exists (with_state idle (with_lines rs w1)).
  assert (combiners w1 = []) as E1
    by (unfold w1; rewrite with_lines_eq; assumption).
  split.
  - unfold instruct.
    rewrite (bind_Ret _ _ w (state w) w) by reflexivity; rewrite N.
    rewrite (bind_Ret _ _ w tt (with_state instructing w)) by reflexivity.
    rewrite (bind_Ret _ _ _ (latest w) (with_state instructing w)) by reflexivity.
    rewrite (bind_Ret _ _ _ tt (with_lines ls (with_state instructing w)))
      by (unfold ls; destruct (id_truthy (latest w)); reflexivity).
    rewrite (bind_Ret _ _ _ tt w1) by reflexivity.
    rewrite (bind_Ret _ _ _ tt (with_lines rs w1))
      by (rewrite rounds_no_combiners, length_seq by assumption; reflexivity).
    reflexivity.
  - unfold w1; rewrite !with_lines_eq; simpl.
    rewrite <- app_assoc; repeat split; assumption.
Qed.

Lemma participating_nil (w : world) (plan : Config) :
  combiners w = [] -> participating w plan = [].
Proof. intros E; unfold participating; rewrite E; reflexivity. Qed.

(** C5. The two gates of a round.  When the round-start policy rejects the
    participants, the round returns None: the latest pointer is as before,
    and no call was sent to a combiner and no time was spent waiting.  When
    the round-start policy accepts them, the participants are dispatched;
    whenever the polling loop then returns, the latest pointer is as
    before, and when the round-validity policy rejects the combiners found
    out of sync, the round returns None in that world.  The polling loop
    does return when the timeout is a finite number of at most 2^53 and the
    fuel is enough for it. *)
Theorem round_gates (fuel : nat) (config : Config) (w : world) :
  let cs := participating w (training_plan config (latest w)) in
  let w0 := with_line "ROUND START POLICY: {}" (with_line "PARTICIPATING: {}" w) in
  (check_round_start_policy cs = false ->
     exists w', round fuel config w = Ret None w' /\
                latest w' = latest w /\
                sent w' = sent w /\ network w' = network w /\ clock w' = clock w) /\
  (check_round_start_policy cs = true ->
     exists wa,
       dispatch cs w0 = Ret tt wa /\
       (forall wait wb,
          wait_loop fuel config (map fst cs) (length cs) 0 wa = Ret wait wb ->
          latest wb = latest w /\
          (check_round_validity_policy (_out_of_sync wb None) = false ->
             round fuel config w = Ret None (with_line "UPDATED: {}" wb) /\
             latest (with_line "UPDATED: {}" wb) = latest w)) /\
       (forall t : Q,
          round_timeout config = Finite t ->
          (t <= inject_Z float_limit)%Q ->
          (wait_bound config <= fuel)%nat ->
          exists wait wb,
            wait_loop fuel config (map fst cs) (length cs) 0 wa = Ret wait wb)).
Proof.
  intros cs w0; split.
  - intros G; destruct (combiners w) as [| c rest] eqn:E.
    + rewrite round_no_combiners by assumption; eexists; repeat split.
    + exists w0; split; [| repeat split].
      unfold round.
      rewrite (bind_Ret _ _ w (combiners w) w) by reflexivity; rewrite E.
      change (length (c :: rest) <? 1)%nat with false; cbv iota.
      rewrite (bind_Ret _ _ w (latest w) w) by reflexivity.
      rewrite (bind_Ret _ _ w cs w) by reflexivity.
      rewrite (bind_Ret _ _ w tt (with_line "PARTICIPATING: {}" w)) by reflexivity.
      rewrite (bind_Ret _ _ _ tt w0) by reflexivity.
      rewrite G; reflexivity.
  - intros G.
    destruct (returns_dispatch cs w0) as ([] & wa & D).
    assert (latest wa = latest w) as La.
    { pose proof (keeps_dispatch latest cs local_latest w0) as K.
      rewrite D in K; exact K. }
    exists wa; split; [exact D |]; split.
    + intros wait wb L.
      assert (latest wb = latest w) as Lb.
      { pose proof (keeps_wait_loop latest fuel config (map fst cs) (length cs) 0
                      local_latest wa) as K.
        rewrite L in K; congruence. }
      split; [assumption |]; intros V; split; [| assumption].
      destruct (combiners w) as [| c rest] eqn:E.
      { unfold cs in G; rewrite participating_nil in G by assumption; discriminate. }
      unfold round.
      rewrite (bind_Ret _ _ w (combiners w) w) by reflexivity; rewrite E.
      change (length (c :: rest) <? 1)%nat with false; cbv iota.
      rewrite (bind_Ret _ _ w (latest w) w) by reflexivity.
      rewrite (bind_Ret _ _ w cs w) by reflexivity.
      rewrite (bind_Ret _ _ w tt (with_line "PARTICIPATING: {}" w)) by reflexivity.
      rewrite (bind_Ret _ _ _ tt w0) by reflexivity.
      rewrite G; cbn [negb].
      rewrite (bind_Ret _ _ _ tt wa) by assumption.
      rewrite (bind_Ret _ _ _ wait wb) by assumption.
      rewrite (bind_Ret _ _ wb (_out_of_sync wb None) wb) by reflexivity.
      rewrite (bind_Ret _ _ wb tt (with_line "UPDATED: {}" wb)) by reflexivity.
      rewrite V; reflexivity.
    + intros t Ht B F; unfold wait_bound in F; rewrite Ht in F.
      destruct (wait_loop_ends config (map fst cs) (length cs) t Ht
                  (timeout_below_limit t B) fuel 0 wa)
        as (k & L & _); [lia | lia | reflexivity |].
      eexists; eexists; exact L.
Qed.

Lemma commit_with_model (id : option ident) (m : repr) (w : world) :
  model_bool m = true ->
  commit id (Some m) w =
  Ret tt (with_latest (Some (fst (set_model (repository w) (save m))))
            (with_repository (snd (set_model (repository w) (save m))) w)).
Proof.
  intros B; unfold commit, bind, modify; rewrite B.
  destruct (set_model (repository w) (save m)); reflexivity.
Qed.



(* ------------------------------------------------------------------ *)
(** ** Further properties of the methods *)

(** *** The registry, continued *)

Lemma find_in_first (n : string) (cs : list Combiner) (c : Combiner) :
  find_in n cs = Some c <->
  exists before rest,
    cs = before ++ c :: rest /\ name c = n /\ ~ In n (map name before).
Proof.
  induction cs as [| x xs IH]; simpl.
  - split; [discriminate | intros ([| ? ?] & rest & E & _); discriminate].
  - destruct (String.eqb n (name x)) eqn:E.
    + apply String.eqb_eq in E; split.
      * intros Hx; inversion Hx; subst x.
        exists [], xs; repeat split; auto.
      * intros ([| y before] & rest & L & Nc & Nb); simpl in L; inversion L; subst.
        -- reflexivity.
        -- exfalso; apply Nb; left; reflexivity.
    + apply String.eqb_neq in E; rewrite IH; split.
      * intros (before & rest & -> & Nc & Nb).
        exists (x :: before), rest; repeat split; auto.
        simpl; intros [Hx | Hx]; [congruence | contradiction].
      * intros ([| y before] & rest & L & Nc & Nb); simpl in L; inversion L; subst.
        -- congruence.
        -- exists before, rest; repeat split; auto.
           intros I; apply Nb; right; assumption.
Qed.

(** X1. [find(name)] returns the first handle of the registry that bears the
    name: the handles registered before it bear other names; it returns
    None exactly when no registered handle bears the name. *)
Theorem find_first_match (w : world) (n : string) :
  (forall c, find w n = Some c <->
     exists before rest,
       combiners w = before ++ c :: rest /\ name c = n /\
       ~ In n (map name before)) /\
  (find w n = None <-> ~ In n (names w)).
Proof.
  split; [intros c; apply find_in_first | apply find_in_none].
Qed.

Lemma find_in_snoc (c : Combiner) (cs : list Combiner) :
  ~ In (name c) (map name cs) -> find_in (name c) (cs ++ [c]) = Some c.
Proof.
  intros N; apply find_in_first; exists cs, []; repeat split; assumption.
Qed.

Lemma names_not_in (c : Combiner) (cs : list Combiner) :
  ~ In (name c) (map name cs) -> ~ In c cs.
Proof. intros N I; apply N, in_map; assumption. Qed.

Lemma list_remove_snoc (c : Combiner) (cs : list Combiner) :
  ~ In c cs -> list_remove c (cs ++ [c]) = Some cs.
Proof.
  induction cs as [| x xs IH]; simpl; intros N.
  - assert (Combiner_eqb c c = true) as -> by (apply Combiner_eqb_eq; reflexivity).
    reflexivity.
  - destruct (Combiner_eqb x c) eqn:E.
    + apply Combiner_eqb_eq in E; exfalso; apply N; left; assumption.
    + rewrite IH by (intros I; apply N; right; assumption); reflexivity.
Qed.

(** X2. On an idle reducer, [add] followed by [find] of the added handle's
    name finds a handle of that name; when the name was not registered
    before, it finds the added handle itself. *)
Theorem add_then_find (c : Combiner) (w : world) :
  state w = idle ->
  exists c',
    find (after (add c w) w) (name c) = Some c' /\
    name c' = name c /\
    (find w (name c) = None -> c' = c).
Proof.
  intros E; destruct (find w (name c)) as [c' |] eqn:F.
  - assert (In (name c) (names w)) as I.
    { destruct (in_dec string_dec (name c) (names w)) as [I | I]; [assumption |].
      apply find_in_none in I; unfold find in F; congruence. }
    rewrite add_known_name by assumption; simpl.
    exists c'; split; [assumption |]; split; [| discriminate].
    apply find_in_first in F; destruct F as (_ & _ & _ & Nc & _); assumption.
  - apply find_in_none in F.
    rewrite add_new_name by assumption; simpl.
    exists c; split; [| split; reflexivity].
    unfold find; simpl; apply find_in_snoc; assumption.
Qed.

(** X3. On an idle reducer, adding a handle whose name is new and removing
    it again returns and leaves the registry as it was. *)
Theorem add_then_remove (c : Combiner) (w : world) :
  state w = idle ->
  ~ In (name c) (names w) ->
  exists w',
    (add c ;; remove c) w = Ret tt w' /\
    combiners w' = combiners w /\
    state w' = idle.
Proof.
  intros E N.
  rewrite (bind_Ret _ _ w tt _ (add_new_name c w E N)).
  unfold remove, bind, gets; simpl; rewrite E; simpl.
  rewrite list_remove_snoc by (apply names_not_in; assumption).
  eexists; split; [reflexivity | split; [reflexivity | assumption]].
Qed.

(** X4. On an idle reducer, a handle whose name is taken by another handle
    is not registered by [add], so removing it afterwards raises ValueError:
    [add] gives no sign that the handle was left out. *)
Theorem add_shadowed_then_remove (c : Combiner) (w : world) :
  state w = idle ->
  In (name c) (names w) ->
  ~ In c (combiners w) ->
  (add c ;; remove c) w = Raise ValueError w.
Proof.
  intros E I N.
  rewrite (bind_Ret _ _ w tt _ (add_known_name c w E I)).
  unfold remove, bind, gets; rewrite E; simpl.
  apply list_remove_none in N; rewrite N; reflexivity.
Qed.

Lemma list_remove_some_in (c : Combiner) (cs cs' : list Combiner) :
  list_remove c cs = Some cs' -> In c cs.
Proof.
  revert cs'; induction cs as [| x xs IH]; simpl; intros cs' R; [discriminate |].
  destruct (Combiner_eqb x c) eqn:E.
  - apply Combiner_eqb_eq in E; left; assumption.
  - destruct (list_remove c xs) as [r |]; simpl in R; [| discriminate].
    right; eapply IH; reflexivity.
Qed.

Lemma list_remove_frees_name (c : Combiner) (cs cs' : list Combiner) :
  NoDup (map name cs) -> list_remove c cs = Some cs' ->
  ~ In (name c) (map name cs').
Proof.
  revert cs'; induction cs as [| x xs IH]; simpl; intros cs' D R; [discriminate |].
  inversion D as [| ? ? Hx Hxs]; subst.
  destruct (Combiner_eqb x c) eqn:E.
  - apply Combiner_eqb_eq in E; subst x; inversion R; subst; assumption.
  - destruct (list_remove c xs) as [r |] eqn:Rx; simpl in R; inversion R; subst.
    simpl; intros [Hn | Hn]; [| eapply IH; eauto].
    assert (In c xs) as Ic by (eapply list_remove_some_in; eauto).
    apply Hx; rewrite Hn; apply in_map; assumption.
Qed.

(** X5. On an idle reducer whose registry has no name twice, removing a
    registered handle frees its name: [find] of the name returns None
    afterwards. *)
Theorem remove_frees_name (c : Combiner) (w : world) :
  state w = idle ->
  NoDup (names w) ->
  In c (combiners w) ->
  exists w',
    remove c w = Ret tt w' /\
    find w' (name c) = None.
Proof.
  intros E D I.
  destruct (list_remove c (combiners w)) as [cs' |] eqn:R;
    [| apply list_remove_none in R; contradiction].
  exists (with_combiners cs' w); split.
  - unfold remove, bind, gets; rewrite E; simpl; rewrite R; reflexivity.
  - apply find_in_none; simpl; eapply list_remove_frees_name; eauto.
Qed.

(** X6. [find_available_combiner] is first fit: the handle it returns is
    registered and allows clients, and no handle registered before it does;
    it returns None exactly when no registered handle allows clients. *)
Theorem find_available_first_fit (w : world) :
  (forall c, find_available_combiner w = Some c ->
     allowing_clients (network w) c = true /\
     exists before rest,
       combiners w = before ++ c :: rest /\
       forall x, In x before -> allowing_clients (network w) x = false) /\
  (find_available_combiner w = None <->
   forall x, In x (combiners w) -> allowing_clients (network w) x = false).
Proof.
  unfold find_available_combiner; generalize (combiners w) as cs.
  intros cs; split.
  - induction cs as [| x xs IH]; simpl; intros c F; [discriminate |].
    destruct (allowing_clients (network w) x) eqn:A.
    + inversion F; subst; split; [assumption |].
      exists [], xs; split; [reflexivity | intros ? []].
    + destruct (IH c F) as (Ac & before & rest & -> & B); split; [assumption |].
      exists (x :: before), rest; split; [reflexivity |].
      intros y [<- | Iy]; auto.
  - induction cs as [| x xs IH]; simpl; [split; [intros _ ? [] | reflexivity] |].
    destruct (allowing_clients (network w) x) eqn:A.
    + split; [discriminate | intros B].
      rewrite (B x (or_introl eq_refl)) in A; discriminate.
    + rewrite IH; split.
      * intros B y [<- | Iy]; auto.
      * intros B y Iy; apply B; right; assumption.
Qed.

(** *** Out of sync *)

Lemma ident_eqb_eq (a b : ident) : ident_eqb a b = true <-> a = b.
Proof.
  destruct a as [m | s], b as [n | t]; simpl;
    try (split; [discriminate | intros E; inversion E]).
  - rewrite N.eqb_eq; split; [intros ->; reflexivity | intros E; inversion E; auto].
  - rewrite String.eqb_eq; split; [intros ->; reflexivity | intros E; inversion E; auto].
Qed.

Lemma py_eq_eq (a b : option ident) : py_eq a b = true <-> a = b.
Proof.
  destruct a as [x |], b as [y |]; simpl;
    try (split; [discriminate | intros E; inversion E]); [| tauto].
  rewrite ident_eqb_eq; split; [intros ->; reflexivity | intros E; inversion E; auto].
Qed.

Lemma out_of_sync_filter (w : world) (l : list Combiner) (c : Combiner) :
  In c (filter (fun x => negb (py_eq (get_model_id (network w) x) (latest w))) l)
  <-> In c l /\ get_model_id (network w) c <> latest w.
Proof.
  rewrite filter_In, negb_true_iff; split; intros [I E]; split; auto.
  - intros Q; apply py_eq_eq in Q; congruence.
  - destruct (py_eq _ _) eqn:P; [apply py_eq_eq in P; contradiction | reflexivity].
Qed.

(** X7. [_out_of_sync] answers the combiners, among those it is given, whose
    model id differs from the latest pointer.  Without an argument it looks
    at the whole registry, and so it does when it is given an empty list:
    an empty list of candidates does not give an empty answer. *)
Theorem out_of_sync_members (w : world) (c : Combiner) :
  (In c (_out_of_sync w None) <->
   In c (combiners w) /\ get_model_id (network w) c <> latest w) /\
  (forall l, l <> [] ->
     (In c (_out_of_sync w (Some l)) <->
      In c l /\ get_model_id (network w) c <> latest w)) /\
  _out_of_sync w (Some []) = _out_of_sync w None.
Proof.
  split; [apply out_of_sync_filter |]; split; [| reflexivity].
  intros [| x l] N; [contradiction | apply out_of_sync_filter].
Qed.

(** *** Calls to the combiners *)

(** A loop that sends one call per element: the calls are logged in order
    and the network takes them one after the other; nothing else changes. *)
Lemma for_each_calls {A} (g : A -> rpc) (step : A -> remote -> remote)
    (xs : list A) (w : world) :
  for_each xs (fun x => modify (fun w => with_call (g x) (step x (network w)) w)) w
  = Ret tt (mkWorld (state w) (combiners w) (latest w) (repository w)
              (fold_left (fun r x => step x r) xs (network w))
              (sent w ++ map g xs) (clock w) (stdout w) (urandom w) (drawn w)).
Proof.
  revert w; induction xs as [| x rest IH]; intros w; simpl.
  - rewrite app_nil_r; destruct w; reflexivity.
  - unfold bind, modify at 1; rewrite IH; simpl.
    rewrite <- app_assoc; reflexivity.
Qed.

Lemma for_each_start (plan : Config) (cs : list Combiner) (w : world) :
  for_each cs (fun c => call_start c plan) w
  = Ret tt (mkWorld (state w) (combiners w) (latest w) (repository w)
              (fold_left (fun r c => start c plan r) cs (network w))
              (sent w ++ map (fun c => Start c plan) cs)
              (clock w) (stdout w) (urandom w) (drawn w)).
Proof.
  exact (for_each_calls (fun c => Start c plan) (fun c => start c plan) cs w).
Qed.

(** X8. [sync_combiners] with a model id that is false in a condition
    (None, or an empty token) sends nothing and prints one line; otherwise
    it sends [set_model_id] with that id to each combiner, in order, prints
    nothing and changes nothing else of the reducer. *)
Theorem sync_combiners_calls (cs : list Combiner) (id : option ident) (w : world) :
  (id_truthy id = false ->
     sync_combiners cs id w
     = Ret tt (with_line "GOT NO MODEL TO SET! Have you seeded the FedML model?" w)) /\
  (id_truthy id = true ->
     exists w',
       sync_combiners cs id w = Ret tt w' /\
       sent w' = sent w ++ map (fun c => SetModelId c id) cs /\
       stdout w' = stdout w /\
       latest w' = latest w /\
       state w' = state w /\
       combiners w' = combiners w).
Proof.
  unfold sync_combiners; split; intros T; rewrite T; simpl; [reflexivity |].
  unfold call_set_model_id.
  rewrite (for_each_calls (fun c => SetModelId c id) (fun c => set_model_id c id)).
  eexists; split; [reflexivity | repeat split].
Qed.

Lemma dispatch_effect (cs : list (Combiner * Config)) (w : world) :
  exists w',
    dispatch cs w = Ret tt w' /\
    sent w' = sent w ++ dispatch_calls (latest w) cs /\
    latest w' = latest w /\
    repository w' = repository w /\
    state w' = state w /\
    combiners w' = combiners w /\
    clock w' = clock w.
Proof.
  unfold dispatch; revert w; induction cs as [| [c plan] rest IH]; intros w.
  - exists w; simpl; rewrite app_nil_r; repeat split.
  - simpl for_each.
    set (w1 := with_call (Start c plan)
                 (start c plan
                    (network (with_line "{} {}"
                       (after (sync_combiners [c] (latest w) w) w))))
                 (with_line "{} {}" (after (sync_combiners [c] (latest w) w) w))).
    assert (sent w1 = sent w ++ (if id_truthy (latest w)
                                 then [SetModelId c (latest w)] else [])
                             ++ [Start c plan] /\
            latest w1 = latest w /\ repository w1 = repository w /\
            state w1 = state w /\ combiners w1 = combiners w /\
            clock w1 = clock w) as (S1 & L1 & R1 & T1 & C1 & K1).
    { unfold w1, sync_combiners; destruct (id_truthy (latest w)); simpl.
      - rewrite <- app_assoc; repeat split.
      - repeat split. }
    destruct (IH w1) as (w' & E & S' & L' & R' & T' & C' & K').
    exists w'; split.
    + rewrite (bind_Ret _ _ w tt w1); [exact E |].
      unfold bind, get_latest_model, gets.
      unfold w1, sync_combiners; destruct (id_truthy (latest w)); reflexivity.
    + rewrite S', S1, L1; simpl; rewrite <- !app_assoc.
      repeat split; congruence.
Qed.

(** X9. Dispatching the participants returns and sends, for each participant
    in order, its sync call (when there is a latest model to set) directly
    followed by its start call, and nothing else: a combiner is always
    synchronized before it is started.  The latest pointer, the repository,
    the state, the registry and the clock are as before. *)
Theorem dispatch_in_order (cs : list (Combiner * Config)) (w : world) :
  exists w',
    dispatch cs w = Ret tt w' /\
    sent w' = sent w ++ dispatch_calls (latest w) cs /\
    latest w' = latest w /\
    repository w' = repository w /\
    state w' = state w /\
    combiners w' = combiners w /\
    clock w' = clock w.
Proof. exact (dispatch_effect cs w). Qed.

(** *** The polling loop, continued *)

Lemma slept_eq (k : nat) (w : world) :
  slept k w =
  mkWorld (state w) (combiners w) (latest w) (repository w)
          (Nat.iter k elapse (network w)) (sent w) (clock w + Z.of_nat k)
          (stdout w) (urandom w) (drawn w).
Proof.
  unfold slept; induction k as [| k IH].
  - simpl; rewrite Z.add_0_r; destruct w; reflexivity.
  - rewrite Nat.iter_succ, IH; unfold with_sleep; simpl.
    f_equal; lia.
Qed.

Lemma float_incr_iter (k : nat) (wait : Z) :
  wait + Z.of_nat k <= float_limit -> Nat.iter k float_incr wait = wait + Z.of_nat k.
Proof.
  induction k as [| k IH]; intros B; [simpl; lia |].
  rewrite Nat.iter_succ, IH by lia.
  rewrite float_incr_below by lia; lia.
Qed.

Lemma wait_loop_slept (fuel : nat) (config : Config) (cl : list Combiner)
    (n : nat) :
  forall wait w,
    match wait_loop fuel config cl n wait w with
    | Ret wait' w' =>
        exists k : nat, wait' = Nat.iter k float_incr wait /\ w' = slept k w
    | Raise _ _ => False
    | OutOfFuel => True
    end.
Proof.
  induction fuel as [| fuel IH]; intros wait w; simpl.
  - destruct (_ <? n)%nat; [exact I |].
    exists 0%nat; split; reflexivity.
  - destruct (_ <? n)%nat; [| exists 0%nat; split; reflexivity].
    unfold bind, sleep, modify.
    destruct (timeout_reached _ _); [exists 1%nat; split; reflexivity |].
    specialize (IH (float_incr wait) (with_sleep w)).
    destruct (wait_loop fuel config cl n (float_incr wait) (with_sleep w))
      as [wait1 w1 | |]; [| exact IH | exact I].
    destruct IH as (k & -> & ->); exists (S k); split.
    + rewrite Nat.iter_succ_r; reflexivity.
    + unfold slept; rewrite Nat.iter_succ_r; reflexivity.
Qed.

(** X10. The polling loop never raises, whatever the fuel.  When it returns,
    it has slept some number [k] of time units: [wait] was incremented [k]
    times (so it grew by [k], as long as that stays within 2^53), the clock
    advanced by [k] and the combiners had [k] time units; the state, the
    registry, the latest pointer, the repository, the calls sent and the
    output are as before. *)
Theorem wait_loop_effect (fuel : nat) (config : Config) (cl : list Combiner)
    (n : nat) (wait : Z) (w : world) :
  match wait_loop fuel config cl n wait w with
  | Ret wait' w' =>
      exists k : nat,
        wait' = Nat.iter k float_incr wait /\
        (wait + Z.of_nat k <= float_limit -> wait' = wait + Z.of_nat k) /\
        w' = slept k w /\
        clock w' = clock w + Z.of_nat k /\
        network w' = Nat.iter k elapse (network w) /\
        state w' = state w /\ combiners w' = combiners w /\
        latest w' = latest w /\ repository w' = repository w /\
        sent w' = sent w /\ stdout w' = stdout w
  | Raise _ _ => False
  | OutOfFuel => True
  end.
Proof.
  pose proof (wait_loop_slept fuel config cl n wait w) as S.
  destruct (wait_loop fuel config cl n wait w) as [wait1 w1 | |]; auto.
  destruct S as (k & -> & ->); exists k; rewrite slept_eq; simpl.
  split; [reflexivity |]; split; [apply float_incr_iter | repeat split].
Qed.

(** X11. The timeout of the polling loop is looked at only after a sleep.
    When the dispatched combiners are already out of sync the loop returns
    at once, with any fuel; when they are not and the timeout is a finite
    number of at most one time unit (zero and negative timeouts too), the
    loop still sleeps one time unit before it gives up. *)
Theorem wait_loop_edges (fuel : nat) (config : Config) (cl : list Combiner)
    (n : nat) (w : world) (t : Q) :
  (converged cl n w -> wait_loop fuel config cl n 0 w = Ret 0 w) /\
  (~ converged cl n w ->
   round_timeout config = Finite t ->
   (t <= 1)%Q ->
   wait_loop (S fuel) config cl n 0 w = Ret 1 (with_sleep w)).
Proof.
  unfold converged; split.
  - intros C; apply Nat.ltb_ge in C; destruct fuel; simpl; rewrite C; reflexivity.
  - intros C Ht T; simpl.
    assert ((length (_out_of_sync w (Some cl)) <? n)%nat = true) as ->
      by (apply Nat.ltb_lt; lia).
    unfold bind, sleep, modify; rewrite Ht.
    change (float_incr 0) with 1; unfold timeout_reached.
    assert (Qle_bool t (inject_Z 1) = true) as ->
      by (apply Qle_bool_iff; exact T).
    reflexivity.
Qed.

(** *** A round, continued *)

Lemma keeps_unless_id_bind {A X} (f : world -> X) (m : M A)
    (k : A -> M (option ident)) :
  keeps f m -> (forall a, keeps_unless_id f (k a)) -> keeps_unless_id f (bind m k).
Proof.
  intros Hm Hk w; unfold bind.
  specialize (Hm w); destruct (m w) as [a w1 | e w1 |]; auto.
  specialize (Hk a w1); destruct (k a w1) as [[id |] w2 | e w2 |]; auto; congruence.
Qed.

Lemma keeps_unless_id_ret {X} (f : world -> X) (r : option ident) :
  keeps_unless_id f (ret r).
Proof. intros w; destruct r; simpl; auto. Qed.

(** From the commit on, a round returns the id it drew. *)
Lemma round_tail_returns (config : Config) (id : ident) (model : repr)
    (updated : list Combiner) (w : world) :
  exists w',
    (commit (Some id) (Some model) ;;
     l' <- get_latest_model ;;
     for_each updated (fun combiner =>
       call_start combiner (set_task "validation" (set_model_id_key l' config))) ;;
     ret (Some id)) w = Ret (Some id) w'.
Proof.
  assert (returns (commit (Some id) (Some model))) as Rc.
  { intros x; unfold commit, bind, modify, ret.
    destruct (model_bool model); [| eexists; eexists; reflexivity].
    destruct (set_model (repository x) (save model)); eexists; eexists; reflexivity. }
  destruct (Rc w) as ([] & w1 & E1).
  rewrite (bind_Ret _ _ w tt w1 E1).
  rewrite (bind_Ret _ _ w1 (latest w1) w1) by reflexivity.
  rewrite (bind_Ret _ _ w1 tt _ (for_each_start _ _ _)).
  eexists; reflexivity.
Qed.

Lemma round_keeps_unless_id {X} (f : world -> X) (fuel : nat) (config : Config) :
  local_data f -> keeps_unless_id f (round fuel config).
Proof.
  intros Hio; unfold round.
  repeat first
    [ apply keeps_unless_id_ret
    | match goal with
      | |- keeps_unless_id _ (bind (commit (Some ?id) (Some ?m)) _) =>
          match goal with
          | |- context [for_each ?u _] =>
              let w := fresh "w" in
              let w' := fresh "w" in
              let E := fresh "E" in
              intros w; destruct (round_tail_returns config id m u w) as (w' & E);
              rewrite E; exact I
          end
      end
    | apply keeps_unless_id_bind;
        [ first [ apply keeps_dispatch; assumption
                | apply keeps_wait_loop; assumption
                | apply keeps_reduce
                | keeps_step ]
        | intro ]
    | match goal with
      | |- keeps_unless_id _ (if ?b then _ else _) => destruct b
      end ].
Qed.

(** X12. What a round leaves alone.  A round never changes the state or the
    registry, whether it returns or raises.  Unless it returns an id, it
    also leaves the latest pointer and the repository as they were: nothing
    is committed by a round that fails. *)
Theorem round_frame (fuel : nat) (config : Config) (w : world) :
  match round fuel config w with
  | Ret r w' =>
      state w' = state w /\ combiners w' = combiners w /\
      (r = None -> latest w' = latest w /\ repository w' = repository w)
  | Raise _ w' =>
      state w' = state w /\ combiners w' = combiners w /\
      latest w' = latest w /\ repository w' = repository w
  | OutOfFuel => True
  end.
Proof.
  pose proof (keeps_round state fuel config local_state w) as Ks.
  pose proof (keeps_round combiners fuel config local_combiners w) as Kc.
  pose proof (round_keeps_unless_id latest fuel config local_latest w) as Kl.
  pose proof (round_keeps_unless_id repository fuel config local_repository w) as Kr.
  destruct (round fuel config w) as [[id |] w' | e w' |]; auto.
  - repeat split; auto; discriminate.
Qed.


(** X14. [commit] with a model stores the model and makes the id that the
    repository returns the latest pointer; the id its caller passed plays
    no part.  It keeps the state and the registry. *)
Theorem commit_with_model_ignores_id (id id' : option ident) (m : repr) (w : world) :
  model_bool m = true ->
  commit id (Some m) w = commit id' (Some m) w /\
  exists w',
    commit id (Some m) w = Ret tt w' /\
    latest w' = Some (fst (set_model (repository w) (save m))) /\
    repository w' = snd (set_model (repository w) (save m)) /\
    state w' = state w /\
    combiners w' = combiners w.
Proof.
  intros B; rewrite !commit_with_model by assumption.
  split; [reflexivity |]; eexists; split; [reflexivity | repeat split].
Qed.

(** *** Aggregation, continued *)

Lemma reduce_loop_filter (w : world) (cs : list Combiner) :
  forall model i,
    reduce_loop cs model i w = reduce_loop (filter (has_model w) cs) model i w.
Proof.
  induction cs as [| c rest IH]; intros model i; simpl; [reflexivity |].
  unfold has_model at 1.
  destruct (get_model (network w) c) as [data |] eqn:G; simpl;
    unfold bind, gets; rewrite ?G; [| apply IH].
  destruct (try_increment model (Some data) i); [apply IH |].
  destruct (load_model data); [apply IH | reflexivity].
Qed.

(** X15. Aggregation skips the combiners that have no model to pull, and
    they do not count: aggregating a sequence gives what aggregating its
    combiners with a model gives. *)
Theorem reduce_skips_empty (cs : list Combiner) (w : world) :
  reduce cs w = reduce (filter (has_model w) cs) w.
Proof. unfold reduce, bind; rewrite reduce_loop_filter; reflexivity. Qed.

Lemma reduce_loop_mean (w : world) (cs : list Combiner) (ms : list repr) :
  Forall2 (fun c m => held_model w c = Some m) cs ms ->
  forall acc i,
    reduce_loop cs (Some acc) i w = Ret (Some (fold_average acc i ms)) w.
Proof.
  induction 1 as [| c m cs ms Hc _ IH]; intros acc i; simpl; [reflexivity |].
  unfold held_model in Hc.
  destruct (get_model (network w) c) as [data |] eqn:G; [| discriminate].
  unfold bind, gets, try_increment; rewrite !G, Hc.
  destruct (increment_average acc m i); apply IH.
Qed.

(** X16. Aggregation is a running mean.  When every combiner of the
    sequence has a model that loads, the first model starts the mean and the
    k-th model is folded in with [increment_average] and the number k; a
    model on which [increment_average] raises takes the place of the mean
    computed so far. *)
Theorem reduce_running_mean (c : Combiner) (rest : list Combiner) (m : repr)
    (ms : list repr) (w : world) :
  held_model w c = Some m ->
  Forall2 (fun x y => held_model w x = Some y) rest ms ->
  reduce (c :: rest) w = Ret (fold_average m 2 ms) w.
Proof.
  intros Hc Hr; unfold held_model in Hc.
  destruct (get_model (network w) c) as [data |] eqn:G; [| discriminate].
  unfold reduce, bind at 1; simpl.
  unfold bind, gets, try_increment; rewrite !G, Hc.
  change (1 + 1) with 2; rewrite (reduce_loop_mean w rest ms Hr); reflexivity.
Qed.

Lemma reduce_loop_cases (w : world) (cs : list Combiner) :
  forall model i,
    (existsb (unloadable w) cs = true ->
     reduce_loop cs model i w = Raise HelperError w) /\
    (existsb (unloadable w) cs = false ->
     exists r, reduce_loop cs model i w = Ret r w /\
               (r = None <-> model = None /\ existsb (has_model w) cs = false)).
Proof.
  induction cs as [| c rest IH]; intros model i; simpl.
  - split; [discriminate | intros _].
    exists model; split; [reflexivity | tauto].
  - unfold unloadable at 1 3, has_model at 1.
    destruct (get_model (network w) c) as [data |] eqn:Gm; simpl;
      unfold bind, gets; rewrite ?Gm.
    + unfold try_increment.
      destruct (load_model data) as [m |]; simpl.
      * assert (exists m', 
                  match match model with
                        | Some m0 => increment_average m0 m i
                        | None => None
                        end with
                  | Some m0 => reduce_loop rest (Some m0) (i + 1)
                  | None => reduce_loop rest (Some m) (i + 1)
                  end = reduce_loop rest (Some m') (i + 1)) as (m' & ->).
        { destruct model as [acc |]; [destruct (increment_average acc m i) |];
            eexists; reflexivity. }
        destruct (IH (Some m') (i + 1)) as [B G]; split; [exact B |].
        intros E; destruct (G E) as (r & -> & Hr); exists r; split; [reflexivity |].
        split; [intros N; apply Hr in N; destruct N; discriminate |].
        intros [_ Q]; discriminate.
      * split; [reflexivity | discriminate].
    + apply IH.
Qed.

(** X17. How aggregation ends.  It never changes the world.  It raises the
    helper's exception exactly when some combiner of the sequence has a
    model that does not load; it raises UnboundLocalError exactly when no
    combiner of the sequence has a model to pull; in every other case it
    returns a model. *)
Theorem reduce_outcome (cs : list Combiner) (w : world) :
  (reduce cs w = Raise HelperError w <->
   exists c data, In c cs /\ get_model (network w) c = Some data /\
                  load_model data = None) /\
  (reduce cs w = Raise UnboundLocalError w <->
   forall c, In c cs -> get_model (network w) c = None) /\
  ((exists m, reduce cs w = Ret m w) <->
   (exists c, In c cs /\ get_model (network w) c <> None) /\
   (forall c data, In c cs -> get_model (network w) c = Some data ->
                   load_model data <> None)).
Proof.
  assert (existsb (unloadable w) cs = true <->
          exists c data, In c cs /\ get_model (network w) c = Some data /\
                         load_model data = None) as Bad.
  { rewrite existsb_exists; unfold unloadable; split.
    - intros (c & I & U).
      destruct (get_model (network w) c) as [data |] eqn:G; [| discriminate].
      destruct (load_model data) eqn:L; [discriminate |].
      exists c, data; auto.
    - intros (c & data & I & G & L); exists c; rewrite G, L; auto. }
  assert (existsb (has_model w) cs = false <->
          forall c, In c cs -> get_model (network w) c = None) as Empty.
  { split.
    - intros E c I; destruct (get_model (network w) c) eqn:G; [| reflexivity].
      assert (existsb (has_model w) cs = true); [| congruence].
      apply existsb_exists; exists c; unfold has_model; rewrite G; auto.
    - intros N; destruct (existsb (has_model w) cs) eqn:E; [| reflexivity].
      apply existsb_exists in E; destruct E as (c & I & M).
      unfold has_model in M; rewrite (N c I) in M; discriminate. }
  destruct (reduce_loop_cases w cs None 1) as [B G].
  unfold reduce, bind.
  destruct (existsb (unloadable w) cs) eqn:U.
  - rewrite (B eq_refl).
    destruct (proj1 Bad eq_refl) as (c & data & I & Gc & Lc).
    split; [| split].
    + split; [intros _; apply Bad; reflexivity | reflexivity].
    + split; [discriminate | intros N].
      rewrite (N c I) in Gc; discriminate.
    + split; [intros (m & E); discriminate | intros (_ & L)].
      exfalso; exact (L c data I Gc Lc).
  - destruct (G eq_refl) as (r & -> & Hr).
    assert (~ exists c data, In c cs /\ get_model (network w) c = Some data /\
                             load_model data = None) as NoBad
      by (intros Q; apply Bad in Q; discriminate).
    destruct r as [m |].
    + assert (existsb (has_model w) cs = true) as Has.
      { destruct (existsb (has_model w) cs) eqn:E; [reflexivity |].
        assert (@Some repr m = None) by (apply Hr; auto); discriminate. }
      split; [| split].
      * split; [discriminate | intros Q; contradiction].
      * split; [discriminate | intros N; apply Empty in N; congruence].
      * split; [intros _ | intros _; exists m; reflexivity].
        split.
        -- apply existsb_exists in Has; destruct Has as (c & I & M).
           exists c; split; [exact I |]; unfold has_model in M.
           destruct (get_model (network w) c); [discriminate | discriminate].
        -- intros c data I Gc Lc; apply NoBad; exists c, data; auto.
    + assert (existsb (has_model w) cs = false) as Has by (apply Hr; reflexivity).
      split; [| split].
      * split; [discriminate | intros Q; contradiction].
      * split; [intros _; apply Empty; exact Has | reflexivity].
      * split; [intros (m & E); discriminate | intros ((c & I & Gc) & _)].
        exfalso; apply Gc; apply Empty; assumption.
Qed.

(** X18. [resolve] is the aggregation of the registry's out-of-sync
    combiners, also when there is none (it then raises UnboundLocalError as
    the aggregation of an empty sequence does); it only reads: whatever it
    answers, no combiner is called and the world is as before. *)
Theorem resolve_is_reduce (w : world) :
  resolve w = reduce (_out_of_sync w None) w /\
  match resolve w with
  | Ret _ w' | Raise _ w' => w' = w
  | OutOfFuel => False
  end.
Proof.
  assert (resolve w = reduce (_out_of_sync w None) w) as E.
  { unfold resolve, bind, gets.
    destruct (_out_of_sync w None) as [| c rest]; reflexivity. }
  split; [exact E |]; rewrite E.
  pose proof (keeps_reduce (fun x => x) (_out_of_sync w None) w) as K.
  pose proof (finishes_reduce (_out_of_sync w None) w) as F.
  destruct (reduce (_out_of_sync w None) w); auto.
Qed.

(** *** The driver, continued *)

(** X19. The states of [instruct].  Entered in the instructing state it
    prints one line and does nothing else.  Entered in another state, it
    ends idle when it returns and monitoring when a round raises; in every
    case the registry is as before. *)
Theorem instruct_states (fuel : nat) (config : Config) (w : world) :
  (state w = instructing ->
   instruct fuel config w = Ret tt (with_line "Already set in INSTRUCTING state" w)) /\
  (state w <> instructing ->
   match instruct fuel config w with
   | Ret _ w' => state w' = idle
   | Raise _ w' => state w' = monitoring
   | OutOfFuel => True
   end) /\
  match instruct fuel config w with
  | Ret _ w' | Raise _ w' => combiners w' = combiners w
  | OutOfFuel => True
  end.
Proof.
  split; [| split].
  - intros E; unfold instruct, bind, gets; rewrite E; reflexivity.
  - apply instruct_state.
  - apply instruct_keeps_combiners.
Qed.

(** X20. [instruct] with a number of rounds that is zero or negative runs no
    round: entered in a state other than instructing it returns with the
    reducer idle, no call sent, no time waited, and the latest pointer and
    the repository as before. *)
Theorem instruct_no_rounds (fuel : nat) (config : Config) (w : world) :
  rounds config <= 0 ->
  state w <> instructing ->
  exists w',
    instruct fuel config w = Ret tt w' /\
    state w' = idle /\
    sent w' = sent w /\
    clock w' = clock w /\
    network w' = network w /\
    latest w' = latest w /\
    repository w' = repository w /\
    combiners w' = combiners w.
Proof.
  intros Z N; apply ReducerState_eqb_neq in N.
  unfold instruct, bind at 1, gets at 1; rewrite N.
  replace (Z.to_nat (rounds config)) with 0%nat by lia; simpl.
  unfold bind, modify, get_latest_model, gets, ret.
  destruct (negb (id_truthy _)); simpl; eexists; split; try reflexivity;
    repeat split.
Qed.

(** X21. A reducer whose [instruct] raised is stuck: it is left in the
    monitoring state, so [add] and [remove] refuse to change the registry
    from then on. *)
Theorem stuck_after_exception (fuel : nat) (config : Config) (w w' : world)
    (e : exn) (c : Combiner) :
  state w <> instructing ->
  instruct fuel config w = Raise e w' ->
  add c w' = Ret tt (with_line "Reducer is not idle, cannot add additional combiner" w') /\
  remove c w' = Ret tt (with_line "Reducer is not idle, cannot remove combiner" w').
Proof.
  intros N R; pose proof (instruct_state fuel config w N) as S; rewrite R in S.
  split.
  - apply add_not_idle; congruence.
  - unfold remove, bind, gets; rewrite S; reflexivity.
Qed.


End Properties.

(* ------------------------------------------------------------------ *)
(** ** The properties on the in-memory doubles *)

Section Scenarios.

Import Scenario.

#[local] Existing Instance net.
#[local] Existing Instance helper.
#[local] Existing Instance repo.

(** C9. The participation policy holds exactly when the plan requires no
    more clients than the combiner reports active.  With W1 reporting five
    active clients, W2 none, and three clients required, the first loop of a
    round keeps W1 and leaves W2 out, and the round-start policy accepts
    the participants. *)
Theorem participation_policy :
  (forall plan st,
     check_round_participation_policy plan st = true <->
     clients_required plan <= nr_active_clients st) /\
  (let w := reducer [W1; W2] converging in
   let plan := training_plan plan3 (latest w) in
   nr_active_clients (report (network w) W1) = 5 /\
   nr_active_clients (report (network w) W2) = 0 /\
   clients_required plan = 3 /\
   check_round_participation_policy plan (report (network w) W1) = true /\
   check_round_participation_policy plan (report (network w) W2) = false /\
   participating w plan = [(W1, plan)] /\
   check_round_start_policy (participating w plan) = true).
Proof.
  split; [exact participation_iff | repeat split].
Qed.

(** C2, on the code.  Aggregation over no combiner raises
    UnboundLocalError.  A round whose only out-of-sync combiner has no model
    to pull raises it too, and [instruct] lets it through, with the reducer
    left in the monitoring state. *)
Theorem round_without_model_raises :
  let w := reducer [W1] hollow in
  reduce [] w = Raise UnboundLocalError w /\
  (exists w', round 3 plan3 w = Raise UnboundLocalError w') /\
  (exists w', instruct 3 plan3 w = Raise UnboundLocalError w' /\
              state w' = monitoring /\ latest w' = latest w).
Proof.
  intros w; split; [reflexivity |]; split.
  - exists (after (round 3 plan3 w) w); vm_compute; reflexivity.
  - exists (after (instruct 3 plan3 w) w); vm_compute; repeat split.
Qed.



(** C6, as stated, fails: removing a handle that is not registered from an
    idle reducer raises ValueError. *)
Lemma remove_absent_raises :
  state (reducer [W2] stuck) = idle /\
  ~ In W1 (combiners (reducer [W2] stuck)) /\
  remove W1 (reducer [W2] stuck) = Raise ValueError (reducer [W2] stuck).
Proof.
  split; [reflexivity |]; split; [| reflexivity].
  simpl; intros [E | []]; discriminate.
Qed.

Lemma remove_guarded_witness :
  remove W1 (with_state monitoring (reducer [W1] stuck)) =
    Ret tt (with_line "Reducer is not idle, cannot remove combiner"
              (with_state monitoring (reducer [W1] stuck))) /\
  remove W1 (reducer [W2] stuck) = Raise ValueError (reducer [W2] stuck) /\
  remove W1 (reducer [W1; W2] stuck) =
    Ret tt (with_combiners [W2] (reducer [W1; W2] stuck)).
Proof.
  split; [| split].
  - apply (remove_guarded W1 (with_state monitoring (reducer [W1] stuck)));
      simpl; discriminate.
  - apply (remove_guarded W1 (reducer [W2] stuck)); [reflexivity |].
    simpl; intros [E | []]; discriminate.
  - destruct (proj2 (proj2 (remove_guarded W1 (reducer [W1; W2] stuck))))
      as (before & rest & E & N & R); [reflexivity | left; reflexivity |].
    destruct before as [| x before]; simpl in E.
    + injection E as <-; exact R.
    + exfalso; apply N; left; injection E as -> _; reflexivity.
Defined.

Lemma registry_names_unique_witness :
  names (fold_left (fun w k => perform k w)
           [CallAdd W1; CallAdd (mkCombiner "W1" 7); CallAdd W2]
           (init (Some A0) [] stuck N.of_nat)) = ["W1"; "W2"] /\
  NoDup (names (fold_left (fun w k => perform k w)
                  [CallAdd W1; CallAdd (mkCombiner "W1" 7); CallAdd W2]
                  (init (Some A0) [] stuck N.of_nat))).
Proof.
  split; [reflexivity | apply registry_names_unique].
Defined.

Lemma reduce_single_witness :
  reduce [W1] (reducer [W1] converging)
  = Ret (3 : @repr helper) (reducer [W1] converging).
Proof.
  apply (reduce_single W1 (reducer [W1] converging) "111"); reflexivity.
Defined.


Lemma instruct_without_combiners_witness :
  exists w',
    instruct 3 plan3 (reducer [] stuck) = Ret tt w' /\
    state w' = idle /\
    latest w' = Some A0 /\
    sent w' = [] /\
    stdout w' = ["REDUCER: No combiners connected!";
                 "REDUCER: Global round failed!"].
Proof.
  destruct (proj1 (instruct_without_combiners 3 plan3) (reducer [] stuck))
    as (w' & E & S & _ & L & _ & C & _ & _ & O);
    [reflexivity | simpl; discriminate |].
  exists w'; repeat split; assumption.
Defined.

Lemma round_gates_witness :
  (exists w', round 3 plan3 (reducer [W2] stuck) = Ret None w' /\
              latest w' = Some A0 /\ sent w' = []) /\
  (exists w', round 3 plan3 (reducer [W1; W2] stuck) = Ret None w' /\
              latest w' = Some A0).
Proof.
  split.
  - destruct (proj1 (round_gates 3 plan3 (reducer [W2] stuck)))
      as (w' & R & L & C & _); [reflexivity |].
    exists w'; repeat split; assumption.
  - destruct (proj2 (round_gates 3 plan3 (reducer [W1; W2] stuck)))
      as (wa & D & V & T); [reflexivity |].
    destruct (T (2 # 1)) as (wait & wb & L);
      [reflexivity | vm_compute; discriminate | unfold wait_bound; simpl; lia |].
    destruct (V wait wb L) as (_ & R).
    vm_compute in D; injection D as <-.
    vm_compute in L; injection L as <- <-.
    destruct R as [R Lc]; [reflexivity |].
    eexists; split; [exact R | exact Lc].
Defined.

(** *** Further properties on the doubles *)

Lemma add_then_find_witness :
  find (after (add W2 (reducer [W1] stuck)) (reducer [W1] stuck)) (name W2)
  = Some W2.
Proof.
  destruct (add_then_find W2 (reducer [W1] stuck) eq_refl) as (c' & F & _ & New).
  rewrite (New eq_refl) in F; exact F.
Defined.

Lemma add_then_remove_witness :
  exists w',
    bind (add W2) (fun _ => remove W2) (reducer [W1] stuck) = Ret tt w' /\
    combiners w' = [W1] /\
    state w' = idle.
Proof.
  apply (add_then_remove W2 (reducer [W1] stuck)); [reflexivity |].
  simpl; intros [E | []]; discriminate.
Defined.

Lemma add_shadowed_then_remove_witness :
  bind (add W1') (fun _ => remove W1') (reducer [W1] stuck)
  = Raise ValueError (reducer [W1] stuck).
Proof.
  apply (add_shadowed_then_remove W1' (reducer [W1] stuck));
    [reflexivity | left; reflexivity | simpl; intros [E | []]; discriminate].
Defined.

Lemma remove_frees_name_witness :
  exists w',
    remove W1 (reducer [W1; W2] stuck) = Ret tt w' /\
    find w' (name W1) = None.
Proof.
  apply (remove_frees_name W1 (reducer [W1; W2] stuck));
    [reflexivity | | left; reflexivity].
  repeat constructor; simpl; intuition discriminate.
Defined.

Lemma sync_combiners_calls_witness :
  sync_combiners [W1; W2] None (reducer [W1; W2] stuck)
  = Ret tt (with_line "GOT NO MODEL TO SET! Have you seeded the FedML model?"
              (reducer [W1; W2] stuck)) /\
  exists w',
    sync_combiners [W1; W2] (Some A1) (reducer [W1; W2] stuck) = Ret tt w' /\
    sent w' = [SetModelId W1 (Some A1); SetModelId W2 (Some A1)].
Proof.
  split.
  - apply (sync_combiners_calls [W1; W2] None (reducer [W1; W2] stuck)); reflexivity.
  - destruct (proj2 (sync_combiners_calls [W1; W2] (Some A1) (reducer [W1; W2] stuck)))
      as (w' & E & S & _); [reflexivity |].
    exists w'; split; [exact E | exact S].
Defined.

Lemma wait_loop_edges_witness :
  wait_loop 0 plan3 [W1] 1 0 (reducer [W1] pair) = Ret 0 (reducer [W1] pair) /\
  wait_loop 1 (mkConfig 1 0%Q 3 None None []) [W1] 1 0 (reducer [W1] stuck)
  = Ret 1 (with_sleep (reducer [W1] stuck)).
Proof.
  split.
  - apply (wait_loop_edges 0 plan3 [W1] 1 (reducer [W1] pair) 0%Q).
    unfold converged; simpl; lia.
  - apply (wait_loop_edges 0 (mkConfig 1 0%Q 3 None None []) [W1] 1
             (reducer [W1] stuck) 0%Q).
    + unfold converged; simpl; lia.
    + reflexivity.
    + simpl; discriminate.
Defined.


Lemma commit_with_model_ignores_id_witness :
  commit (Some A1) (Some (5 : @repr helper)) (reducer [W1] stuck)
  = commit None (Some (5 : @repr helper)) (reducer [W1] stuck) /\
  exists w',
    commit (Some A1) (Some (5 : @repr helper)) (reducer [W1] stuck) = Ret tt w' /\
    latest w' = Some (Token "11").
Proof.
  destruct (commit_with_model_ignores_id (Some A1) None (5 : @repr helper)
              (reducer [W1] stuck) eq_refl) as (E & w' & C & L & _).
  split; [exact E | exists w'; split; [exact C | exact L]].
Defined.

Lemma reduce_running_mean_witness :
  reduce [W1; W2] (reducer [W1; W2; W3] pair)
  = Ret (4 : @repr helper) (reducer [W1; W2; W3] pair).
Proof.
  apply (reduce_running_mean W1 [W2] (2 : @repr helper) [6 : @repr helper]
           (reducer [W1; W2; W3] pair)); [reflexivity |].
  constructor; [reflexivity | constructor].
Defined.

Lemma instruct_states_witness :
  instruct 3 plan3 (with_state instructing (reducer [W1] stuck))
  = Ret tt (with_line "Already set in INSTRUCTING state"
              (with_state instructing (reducer [W1] stuck))) /\
  state (after (instruct 3 plan3 (reducer [W1] hollow)) (reducer [W1] hollow))
  = monitoring /\
  state (after (instruct 3 plan3 (reducer [W1] stuck)) (reducer [W1] stuck))
  = idle.
Proof.
  split; [| split].
  - apply (instruct_states 3 plan3 (with_state instructing (reducer [W1] stuck)));
      reflexivity.
  - pose proof (proj1 (proj2 (instruct_states 3 plan3 (reducer [W1] hollow)))) as S.
    vm_compute in S |- *; apply S; discriminate.
  - pose proof (proj1 (proj2 (instruct_states 3 plan3 (reducer [W1] stuck)))) as S.
    vm_compute in S |- *; apply S; discriminate.
Defined.

Lemma instruct_no_rounds_witness :
  exists w',
    instruct 0 plan0 (reducer [W1; W2] converging) = Ret tt w' /\
    state w' = idle /\
    sent w' = [] /\
    clock w' = 0.
Proof.
  destruct (instruct_no_rounds 0 plan0 (reducer [W1; W2] converging))
    as (w' & E & S & C & K & _); [simpl; lia | simpl; discriminate |].
  exists w'; repeat split; assumption.
Defined.

Lemma stuck_after_exception_witness :
  exists w',
    instruct 3 plan3 (reducer [W1] hollow) = Raise UnboundLocalError w' /\
    add W2 w'
    = Ret tt (with_line "Reducer is not idle, cannot add additional combiner" w') /\
    remove W1 w'
    = Ret tt (with_line "Reducer is not idle, cannot remove combiner" w').
Proof.
  assert (instruct 3 plan3 (reducer [W1] hollow)
          = Raise UnboundLocalError
              (after (instruct 3 plan3 (reducer [W1] hollow)) (reducer [W1] hollow)))
    as R by (vm_compute; reflexivity).
  assert (state (reducer [W1] hollow) <> instructing) as N by (simpl; discriminate).
  eexists; split; [exact R | split].
  - apply (stuck_after_exception 3 plan3 _ _ _ W2 N R).
  - apply (stuck_after_exception 3 plan3 _ _ _ W1 N R).
Defined.


End Scenarios.

End ReducerControl.
